(** * emcee_specfit: likelihood, posterior, sampler set-up and credible bands

    A shallow embedding of [emcee_specfit.py].

    Numbers.  A numpy float64 is modelled as an exact real extended with the
    IEEE special values [+inf], [-inf] and [nan]: division by zero and the
    logarithm of a non-positive number produce them exactly as numpy does
    (with a warning, never an exception), and they propagate through the
    arithmetic by the IEEE rules.  Rounding, overflow and the sign of zero
    are abstracted away.

    Arrays are lists.  The observation set is the dictionary [data] of the
    source, a record of index-aligned columns holding measured (real)
    values. *)

From Stdlib Require Import Reals Lra Lia List Bool Arith ZArith String Sorted.
Import ListNotations.

Local Open Scope R_scope.

(** ** Floating-point values *)

Module NP.

Inductive float : Type :=
| Fin (r : R)
| PInf
| NInf
| NaN.

Definition finite (x : float) : Prop :=
  match x with Fin _ => True | _ => False end.

Definition Rltb (a b : R) : bool := if Rlt_dec a b then true else false.
Definition Rleb (a b : R) : bool := if Rle_dec a b then true else false.
Definition Reqb (a b : R) : bool := if Req_dec_T a b then true else false.

Definition neg (x : float) : float :=
  match x with
  | Fin a => Fin (- a)
  | PInf => NInf
  | NInf => PInf
  | NaN => NaN
  end.

Definition add (x y : float) : float :=
  match x, y with
  | NaN, _ | _, NaN => NaN
  | Fin a, Fin b => Fin (a + b)
  | PInf, NInf | NInf, PInf => NaN
  | PInf, _ | _, PInf => PInf
  | NInf, _ | _, NInf => NInf
  end.

Definition sub (x y : float) : float := add x (neg y).

(** [inf * 0] is [nan]; otherwise the sign of an infinite product is the
    product of the signs. *)
Definition scale_inf (pos : bool) (a : R) : float :=
  if Reqb a 0 then NaN
  else if Rltb 0 a then (if pos then PInf else NInf)
  else (if pos then NInf else PInf).

Definition mul (x y : float) : float :=
  match x, y with
  | NaN, _ | _, NaN => NaN
  | Fin a, Fin b => Fin (a * b)
  | PInf, Fin a | Fin a, PInf => scale_inf true a
  | NInf, Fin a | Fin a, NInf => scale_inf false a
  | PInf, PInf | NInf, NInf => PInf
  | PInf, NInf | NInf, PInf => NInf
  end.

(** Division: [a / 0] is [nan] for [a = 0] and an infinity of the sign of
    [a] otherwise (the zero divisors of this program are squares and sums,
    hence [+0]). *)
Definition div (x y : float) : float :=
  match x, y with
  | NaN, _ | _, NaN => NaN
  | Fin a, Fin b =>
      if Reqb b 0 then
        (if Reqb a 0 then NaN else if Rltb 0 a then PInf else NInf)
      else Fin (a / b)
  | Fin _, (PInf | NInf) => Fin 0
  | (PInf | NInf), (PInf | NInf) => NaN
  | PInf, Fin b => if Rltb b 0 then NInf else PInf
  | NInf, Fin b => if Rltb b 0 then PInf else NInf
  end.

(** [x ** 2] *)
Definition sqr (x : float) : float := mul x x.

(** [np.log] *)
Definition log (x : float) : float :=
  match x with
  | Fin a => if Rltb a 0 then NaN else if Reqb a 0 then NInf else Fin (ln a)
  | PInf => PInf
  | NInf | NaN => NaN
  end.

(** [np.sqrt] *)
Definition fsqrt (x : float) : float :=
  match x with
  | Fin a => if Rltb a 0 then NaN else Fin (sqrt a)
  | PInf => PInf
  | NInf | NaN => NaN
  end.

(** [x > y]; every comparison with [nan] is false. *)
Definition gtb (x y : float) : bool :=
  match x, y with
  | NaN, _ | _, NaN => false
  | Fin a, Fin b => Rltb b a
  | PInf, PInf => false
  | PInf, _ => true
  | _, PInf => false
  | NInf, _ => false
  | Fin _, NInf => true
  end.

(** [x <= y] *)
Definition leb (x y : float) : bool :=
  match x, y with
  | NaN, _ | _, NaN => false
  | Fin a, Fin b => Rleb a b
  | _, PInf => true
  | PInf, _ => false
  | NInf, _ => true
  | Fin _, NInf => false
  end.

Definition of_Z (k : Z) : float := Fin (IZR k).
Definition of_nat (k : nat) : float := Fin (INR k).

(** [np.sum] of a float array; the sum of the empty array is [0.0]. *)
Definition sum (xs : list float) : float := fold_left add xs (Fin 0).

(** [np.sum] of a boolean array counts its [True] entries. *)
Definition count_true (bs : list bool) : nat :=
  List.length (filter (fun b : bool => b) bs).

(** [np.mean] *)
Definition mean (xs : list float) : float :=
  div (sum xs) (of_nat (List.length xs)).

(** [np.std]: the root of the mean squared deviation from the mean. *)
Definition std (xs : list float) : float :=
  let m := mean xs in
  fsqrt (mean (map (fun x => sqr (sub x m)) xs)).

(** Integer index into a sequence, with Python's rule for negative
    indices; [None] stands for [IndexError]. *)
Definition index {A} (xs : list A) (i : Z) : option A :=
  let n := Z.of_nat (List.length xs) in
  if (0 <=? i)%Z then nth_error xs (Z.to_nat i)
  else if (- n <=? i)%Z then nth_error xs (Z.to_nat (n + i))
  else None.

(** Boolean-mask indexing [a[m]]. *)
Definition mask {A} (xs : list A) (bs : list bool) : list A :=
  map fst (filter snd (combine xs bs)).

(** Element-wise binary operation on arrays of one shape. *)
Fixpoint map2 {A B C} (f : A -> B -> C) (xs : list A) (ys : list B)
  : list C :=
  match xs, ys with
  | x :: xs', y :: ys' => f x y :: map2 f xs' ys'
  | _, _ => []
  end.

(** [int(x)]: truncation towards zero. *)
Definition int_of (x : R) : Z :=
  if Rle_dec 0 x then Int_part x else (- Int_part (- x))%Z.

(** [np.diff] *)
Definition diff (x : list float) : list float :=
  map2 sub (tl x) (removelast x).

(** [np.trapz(y, x)]: the sum of [diff(x) * (y[1:] + y[:-1]) / 2.0]. *)
Definition trapz (y x : list float) : float :=
  sum (map2 (fun d s => div (mul d s) (Fin 2))
            (diff x) (map2 add (tl y) (removelast y))).

End NP.

Import NP.

(** ** The observation set *)

(** [data['dflux']] is either a 1-d array of symmetric uncertainties or a
    2-column array whose column 0 holds the lower and column 1 the upper
    error of each point. *)
Inductive dflux_t : Type :=
| Sym (d : list R)
| Asym (d : list (R * R)).

Record Data : Type := mkData {
  ene : list R;
  flux : list R;
  dflux : dflux_t;
  ul : list bool;
  cl : R
}.

Definition arr (xs : list R) : list float := map Fin xs.

Definition dflux_len (d : dflux_t) : nat :=
  match d with Sym c => List.length c | Asym c => List.length c end.

(** The columns of an observation set and the model array evaluated on it
    are index-aligned. *)
Definition aligned (model : list float) (data : Data) : Prop :=
  List.length (flux data) = List.length model /\
  dflux_len (dflux data) = List.length model /\
  List.length (ul data) = List.length model.

Definition with_cl (data : Data) (c : R) : Data :=
  mkData (ene data) (flux data) (dflux data) (ul data) c.

(** ** Prior building blocks *)


(** [umin <= value <= umax] *)
Definition uniform_prior (value umin umax : float) : float :=
  if leb umin value && leb value umax then Fin 0 else NInf.

Definition normal_prior (value mean sigma : float) : float :=
  sub (mul (Fin (- (1 / 2))) (mul (mul (Fin 2) (Fin PI)) sigma))
      (div (sqr (sub value mean)) (mul (Fin 2) sigma)).

(** ** Likelihood *)

(** [1*b] for a boolean [b] *)
Definition int_of_bool (b : bool) : Z := if b then 1%Z else 0%Z.

(** Lines 65-76 of [lnprobmodel]: the per-point terms of the points that are
    not upper limits.  On a boolean array the unary minus of the source is
    the logical negation. *)
Definition logprob_terms (model : list float) (data : Data) : list float :=
  let notul := map negb (ul data) in
  let difference :=
    map2 sub (mask model notul) (mask (arr (flux data)) notul) in
  match dflux data with
  | Asym d =>
      let sign := map (fun x => gtb x (Fin 0)) difference in
      let loerr := map (fun s => int_of_bool (negb s)) sign in
      let hierr := map (fun s => int_of_bool s) sign in
      let err :=
        map2 add
          (map2 (fun k e => mul (of_Z k) e) loerr
                (arr (map fst (mask d notul))))
          (map2 (fun k e => mul (of_Z k) e) hierr
                (arr (map snd (mask d notul))))
      in
      map2 (fun x e => div (neg (sqr x)) (mul (Fin 2) (sqr e))) difference err
  | Sym d =>
      map2 (fun x e => div (neg (sqr x)) (mul (Fin 2) (sqr e)))
           difference (arr (mask d notul))
  end.

(** Line 82: the number of upper limits the model exceeds. *)
Definition violated_uls (model : list float) (data : Data) : nat :=
  count_true (map2 gtb (mask model (ul data))
                       (mask (arr (flux data)) (ul data))).

Definition lnprobmodel (model : list float) (data : Data) : float :=
  let totallogprob := sum (logprob_terms model data) in
  if (0 <? count_true (ul data))%nat then
    add totallogprob
        (mul (of_nat (violated_uls model data))
             (log (sub (Fin 1) (Fin (cl data)))))
  else totallogprob.

(** *** The likelihood, point by point

    The same quantities written as the specification words them: one record
    per observed point, a sum over the points that are not upper limits and
    a count over those that are. *)

Record point : Type := mkPoint {
  p_model : float;
  p_flux : R;
  p_err : R + R * R;
  p_ul : bool
}.

Definition uncertainties (d : dflux_t) : list (R + R * R) :=
  match d with
  | Sym c => map inl c
  | Asym c => map inr c
  end.

Fixpoint zip_points (model : list float) (fl : list R)
    (errs : list (R + R * R)) (uls : list bool) : list point :=
  match model, fl, errs, uls with
  | m :: model', f :: fl', e :: errs', u :: uls' =>
      mkPoint m f e u :: zip_points model' fl' errs' uls'
  | _, _, _, _ => []
  end.

Definition points (model : list float) (data : Data) : list point :=
  zip_points model (flux data) (uncertainties (dflux data)) (ul data).

Definition difference (p : point) : float := sub (p_model p) (Fin (p_flux p)).

(** Which column of an asymmetric uncertainty serves a point, given whether
    its difference is positive. *)
Definition convention : Type := bool -> R * R -> R.

(** lower error (column 0) when [difference > 0], upper error otherwise *)
Definition lower_when_above : convention :=
  fun above e => if above then fst e else snd e.

(** upper error (column 1) when [difference > 0], lower error otherwise *)
Definition upper_when_above : convention :=
  fun above e => if above then snd e else fst e.

Definition sigma_of (pick : convention) (p : point) : R :=
  match p_err p with
  | inl s => s
  | inr e => pick (gtb (difference p) (Fin 0)) e
  end.

(** [-difference^2 / (2 sigma^2)] *)
Definition gauss_term (pick : convention) (p : point) : float :=
  div (neg (sqr (difference p)))
      (mul (Fin 2) (sqr (Fin (sigma_of pick p)))).

Definition measured (p : point) : bool := negb (p_ul p).

Definition gauss_total (pick : convention) (model : list float)
    (data : Data) : float :=
  sum (map (gauss_term pick) (filter measured (points model data))).

Definition violated (p : point) : bool :=
  p_ul p && gtb (p_model p) (Fin (p_flux p)).

Definition violated_count (model : list float) (data : Data) : nat :=
  List.length (filter violated (points model data)).

Definition upper_limit_count (model : list float) (data : Data) : nat :=
  List.length (filter p_ul (points model data)).

(** The uncertainty that serves each measured point is not zero. *)
Definition errors_nonzero (model : list float) (data : Data) : Prop :=
  Forall (fun p => measured p = true -> sigma_of upper_when_above p <> 0)
         (points model data).

(** Two small observation sets: one measured point with asymmetric
    errors, and one upper limit stated at confidence level 1. *)
Definition one_measured : Data :=
  mkData [1] [1] (Asym [(1, 2)]) [false] 0.

Definition one_limit : Data :=
  mkData [1] [1] (Sym [1]) [true] 1.

Definition two_points : Data :=
  mkData [1; 2] [1; 3] (Sym [1; 1]) [false; true] (95 / 100).

(** ** Effects: printed lines, exceptions and the shared arrays

    A parameter array is a mutable object: the module-level [p00] is also
    the default value of the [p0] argument of [get_sampler], so the store
    maps locations to array contents and an argument of array type is a
    location. *)

Inductive exn : Type := TypeError | IndexError | LibraryError.

Inductive result (A : Type) : Type :=
| Ok (a : A)
| Err (e : exn).
Arguments Ok {A} a.
Arguments Err {A} e.

(** What the program does to the outside, in order: a printed line (its
    text and the values formatted into it), the progress record [lnprob]
    prints at each evaluation (the parameters, then the total), and the
    calls into the sampler library. *)
Inductive event : Type :=
| Printed (text : string) (args : list float)
| Progress (pars : list float) (total : float)
| SampleBall (p0 std : list float) (size : nat)
| RunMCMC (pos : list (list float)) (nsteps : nat)
| ResetChain.

Definition loc : Type := nat.
Definition heap : Type := loc -> list float.

Record world : Type := mkWorld {
  arrays : heap;
  printed : list event
}.

Inductive outcome (A : Type) : Type :=
| Ret (a : A) (w : world)
| Exc (e : exn) (w : world).
Arguments Ret {A} a w.
Arguments Exc {A} e w.

Definition M (A : Type) : Type := world -> outcome A.

Definition ret {A} (a : A) : M A := fun w => Ret a w.

Definition bind {A B} (m : M A) (k : A -> M B) : M B :=
  fun w => match m w with
           | Ret a w' => k a w'
           | Exc e w' => Exc e w'
           end.

Notation "x <- m ;; k" := (bind m (fun x => k))
  (at level 61, m at next level, right associativity).
Notation "m ;;; k" := (bind m (fun _ => k))
  (at level 61, right associativity).

Definition raise {A} (e : exn) : M A := fun w => Exc e w.

Definition emit (ev : event) : M unit :=
  fun w => Ret tt (mkWorld (arrays w) (printed w ++ [ev])).

Definition lift {A} (r : result A) : M A :=
  match r with Ok a => ret a | Err e => raise e end.

(** [xs[i]], raising [IndexError] out of range *)
Definition item {A} (xs : list A) (i : Z) : result A :=
  match index xs i with Some x => Ok x | None => Err IndexError end.

Definition fetch (l : loc) : M (list float) := fun w => Ret (arrays w l) w.

Definition set_heap (h : heap) (l : loc) (v : list float) : heap :=
  fun l' => if Nat.eqb l' l then v else h l'.

Fixpoint set_nth {A} (xs : list A) (i : nat) (v : A) : list A :=
  match xs, i with
  | [], _ => []
  | _ :: xs', O => v :: xs'
  | x :: xs', S i' => x :: set_nth xs' i' v
  end.

(** [a[i] = v] on the array at location [l] *)
Definition store_item (l : loc) (i : nat) (v : float) : M unit :=
  fun w => Ret tt (mkWorld (set_heap (arrays w) l (set_nth (arrays w l) i v))
                           (printed w)).

Definition final_world {A} (o : outcome A) : world :=
  match o with Ret _ w => w | Exc _ w => w end.

(** A loop printing one formatted line per row. *)
Fixpoint print_each (text : string) (rows : list (list float)) : M unit :=
  match rows with
  | [] => ret tt
  | row :: rows' => emit (Printed text row) ;;; print_each text rows'
  end.

(** ** Model and prior evaluators, posterior *)

(** What a model evaluator returns: a bare flux array, or a tuple of the
    flux array and further payload.  A payload slot is a sequence of
    arrays, as the default slot [(energy, flux)] is. *)
Definition payload : Type := list (list float).
Definition blob : Type := list payload.

Inductive modelout : Type :=
| Bare (model : list float)
| Tuple (model : list float) (extra : list payload).

(** Evaluators are pure functions of their arguments that may raise. *)
Definition modelfunc : Type := list float -> Data -> result modelout.
Definition priorfunc : Type := list float -> result float.

Definition flatprior : priorfunc := fun pars => Ok (Fin 0).

Definition bind_result {A B} (r : result A) (k : A -> result B) : result B :=
  match r with Ok a => k a | Err e => Err e end.

(** [np.exp] *)
Definition fexp (x : float) : float :=
  match x with
  | Fin a => Fin (exp a)
  | PInf => PInf
  | NInf => Fin 0
  | NaN => NaN
  end.

(** [scipy.stats.gmean]: the exponential of the mean logarithm. *)
Definition gmean (x : list float) : float := fexp (mean (map log x)).

(** Evaluators that ignore their arguments, and the world at import
    time. *)
Definition constant_model (m : list float) : modelfunc :=
  fun _ _ => Ok (Bare m).

Definition tuple_model (m : list float) (extra : list payload) : modelfunc :=
  fun _ _ => Ok (Tuple m extra).

(** ** The ensemble sampler handle

    [emcee.EnsembleSampler] is an external collaborator.  The handle keeps
    the arguments it was built with, the [data] attribute the set-up code
    attaches, and the history of a run: [blobs] indexed by step then walker,
    [flatchain] by sample then parameter.  Its [lnprobfn] calls the
    log-probability function on a position followed by the stored
    arguments. *)
Record Sampler : Type := mkSampler {
  s_nwalkers : nat;
  s_dim : nat;
  s_args : Data * modelfunc * priorfunc;
  s_threads : nat;
  s_data : option Data;
  blobs : list (list blob);
  flatchain : list (list float)
}.

Definition EnsembleSampler (nwalkers ndim : nat)
    (args : Data * modelfunc * priorfunc) (threads : nat) : Sampler :=
  mkSampler nwalkers ndim args threads None [] [].

Definition set_data (s : Sampler) (d : Data) : Sampler :=
  mkSampler (s_nwalkers s) (s_dim s) (s_args s) (s_threads s) (Some d)
            (blobs s) (flatchain s).

(** [sampler.reset()] clears the stored history. *)
Definition reset (s : Sampler) : Sampler :=
  mkSampler (s_nwalkers s) (s_dim s) (s_args s) (s_threads s) (s_data s)
            [] [].

Fixpoint map_result {A B} (f : A -> result B) (xs : list A)
  : result (list B) :=
  match xs with
  | [] => Ok []
  | x :: xs' =>
      bind_result (f x) (fun y =>
      bind_result (map_result f xs') (fun ys => Ok (y :: ys)))
  end.

(** ** Sorting and order statistics *)

(** The order [np.sort] uses: [nan] goes last. *)
Definition sort_leb (x y : float) : bool :=
  match x, y with
  | _, NaN => true
  | NaN, _ => false
  | _, _ => leb x y
  end.

Definition sle (x y : float) : Prop := sort_leb x y = true.

Fixpoint insert_sorted (x : float) (xs : list float) : list float :=
  match xs with
  | [] => [x]
  | y :: ys => if sort_leb x y then x :: y :: ys else y :: insert_sorted x ys
  end.

Definition np_sort (xs : list float) : list float :=
  fold_right insert_sorted [] xs.

(** [np.median]: the middle order statistic, or the mean of the two middle
    ones when the sample size is even. *)
Definition np_median (xs : list float) : float :=
  let s := np_sort xs in
  let n := List.length xs in
  if Nat.even n then
    mean [nth (n / 2 - 1) s NaN; nth (n / 2) s NaN]
  else nth (n / 2) s NaN.

(** The order statistic of rank [n / 2] (from 0) of a sample of size [n]:
    the median of an odd-sized sample, the upper of the two middle values of
    an even-sized one. *)
Definition upper_median (xs : list float) : float :=
  nth (List.length xs / 2) (np_sort xs) NaN.

(** [a[:, i]] of a 2-d array given by its rows *)
Definition column (a : list (list float)) (i : nat) : result (list float) :=
  map_result (fun row => item row (Z.of_nat i)) a.

(** [a.T] of a 2-d array with [ncols] columns *)
Definition transpose (ncols : nat) (a : list (list float))
  : list (list float) :=
  map (fun j => map (fun row => nth j row NaN) a) (seq 0 ncols).

(** The values of an ensemble of curves at grid point [i], the ensemble
    being a 2-d array of [npoints] columns. *)
Definition values_at (model : list (list float)) (i : nat) : list float :=
  map (fun row => nth i row NaN) model.

Definition rectangular (model : list (list float)) (npoints : nat) : Prop :=
  Forall (fun row => List.length row = npoints) model.

(** [x <= y] holds *)
Definition fle (x y : float) : Prop := leb x y = true.

(** What the bands need of the normal distribution function: it is
    non-decreasing with values in [0, 1).  This is the mathematical
    function; as float64 computes it the value 1.0 is reached at large
    arguments, which [is_rounded_cdf] allows for. *)
Definition is_cdf (F : R -> R) : Prop :=
  (forall x, 0 <= F x < 1) /\ (forall x y, x <= y -> F x <= F y).

(** A distribution function in closed form, the logistic one. *)
Definition logistic (x : R) : R := 1 / (1 + exp (- x)).

(** The module-level default guess [p00 = np.array((2, 1e-11, 10, 1))]. *)
Definition p00 : loc := 0%nat.
Definition p00_initial : list float :=
  [Fin 2; Fin (1 / 10 ^ 11); Fin 10; Fin 1].
Definition module_heap : heap :=
  fun l => if Nat.eqb l p00 then p00_initial else [].

(** Stand-ins for the library functions where a concrete run is wanted:
    [x ** y] as [exp(y log x)], a ball that does not scatter and a run that
    does not move. *)
Definition exp_log_power (x y : float) : float := fexp (mul y (log x)).

Definition still_ball (p0 std : list float) (size : nat)
  : list (list float) := repeat p0 size.

Definition idle_run (s : Sampler) (pos : list (list float)) (nsteps : nat)
  : result (Sampler * list (list float)) := Ok (s, pos).

(** Two samplers after a one-step run of two walkers on a one-point grid:
    the model of the first returns a bare array, the model of the second a
    tuple whose payload curve differs from its flux array. *)
Definition pair_slot : payload := [[Fin 1]; [Fin 2]].
Definition pair_slot' : payload := [[Fin 1]; [Fin 4]].

Definition sampler_bare : Sampler :=
  mkSampler 2 1 (one_measured, constant_model [Fin 2], flatprior) 1
            (Some one_measured)
            [[[pair_slot]; [pair_slot']]] [[Fin 0]; [Fin 0]].

Definition sampler_tuple : Sampler :=
  mkSampler 2 1 (one_measured, tuple_model [Fin 1] [pair_slot], flatprior) 1
            (Some one_measured)
            [[[pair_slot]; [pair_slot']]] [[Fin 0]; [Fin 0]].

Definition at_import : world := mkWorld module_heap [].

Section Program.

(** numpy's [**] on floats, with its table of special cases *)
Variable power : float -> float -> float.

(** [scipy.stats.norm.cdf] *)
Variable norm_cdf : R -> R.

Definition cutoffexp : modelfunc := fun pars data =>
  let x := arr (ene data) in
  let x0 := gmean x in
  bind_result (item pars 0) (fun gamma =>
  bind_result (item pars 1) (fun N =>
  bind_result (item pars 2) (fun ecut =>
  bind_result (item pars 3) (fun beta =>
  Ok (Bare (map (fun xi =>
         mul (mul N (power (div xi x0) (neg gamma)))
             (fexp (neg (power (div xi ecut) beta)))) x)))))).

Definition lnprob (pars : list float) (data : Data) (model_f : modelfunc)
    (prior_f : priorfunc) : M (float * blob) :=
  modelout <- lift (model_f pars data) ;;
  let '(model, blob) :=
    match modelout with
    | Tuple m extra => (m, extra)
    | Bare m => (m, [[arr (ene data); m]])
    end in
  let lnprob_model := lnprobmodel model data in
  lnprob_priors <- lift (prior_f pars) ;;
  let total_lnprob := add lnprob_model lnprob_priors in
  emit (Progress pars total_lnprob) ;;;
  ret (total_lnprob, blob).

(** [emcee.utils.sample_ball] and [EnsembleSampler.run_mcmc]: random, and
    outside this module.  A run returns the handle with its history and the
    final positions, or fails. *)
Variable sample_ball : list float -> list float -> nat -> list (list float).
Variable run_mcmc :
  Sampler -> list (list float) -> nat -> result (Sampler * list (list float)).

Definition lnprobfn (s : Sampler) (x : list float) : M (float * blob) :=
  let '(data, model_f, prior_f) := s_args s in
  lnprob x data model_f prior_f.

(** *** Sampler set-up *)

Definition get_sampler (nwalkers nburn : nat) (guess : bool) (p0 : loc)
    (data : option Data) (model_f : modelfunc) (prior_f : priorfunc)
    (threads : nat) : M (Sampler * list (list float)) :=
  match data with
  | None =>
      emit (Printed "Need to provide data!" []) ;;;
      raise TypeError
  | Some data =>
      (if guess then
         p <- fetch p0 ;;
         lpb <- lnprob p data model_f prior_f ;;
         let blob := snd lpb in
         slot <- lift (item blob 0) ;;
         ene_ <- lift (item slot 0) ;;
         spec <- lift (item slot 1) ;;
         p <- fetch p0 ;;
         norm <- lift (item p 1) ;;
         store_item p0 1
           (mul norm (div (trapz (arr (flux data)) (arr (ene data)))
                          (trapz spec ene_)))
       else ret tt) ;;;
      p <- fetch p0 ;;
      let ndim := List.length p in
      let sampler :=
        set_data (EnsembleSampler nwalkers ndim (data, model_f, prior_f)
                                  threads) data in
      let p0var := map (fun pp => div pp (Fin 10)) p in
      emit (SampleBall p p0var nwalkers) ;;;
      let ball := sample_ball p p0var nwalkers in
      emit (Printed "Burning in the walkers with {0} steps..."
                    [of_nat nburn]) ;;;
      emit (RunMCMC ball nburn) ;;;
      burnin <- lift (run_mcmc sampler ball nburn) ;;
      ret burnin
  end.

(** The keyword arguments of [get_sampler] and their defaults. *)
Record kwargs : Type := mkKwargs {
  k_nwalkers : nat;
  k_nburn : nat;
  k_guess : bool;
  k_p0 : loc;
  k_data : option Data;
  k_model : modelfunc;
  k_prior : priorfunc;
  k_threads : nat
}.


Definition with_data (k : kwargs) (d : Data) : kwargs :=
  mkKwargs (k_nwalkers k) (k_nburn k) (k_guess k) (k_p0 k) (Some d)
           (k_model k) (k_prior k) (k_threads k).

Definition get_sampler_kw (k : kwargs) : M (Sampler * list (list float)) :=
  get_sampler (k_nwalkers k) (k_nburn k) (k_guess k) (k_p0 k) (k_data k)
              (k_model k) (k_prior k) (k_threads k).

Definition run_sampler (nrun : nat) (sampler : option Sampler)
    (pos : option (list (list float))) (k : kwargs)
  : M (Sampler * list (list float)) :=
  sp <- match sampler, pos with
        | Some s, Some p => ret (s, p)
        | _, _ => get_sampler_kw k
        end ;;
  let '(sampler, pos) := sp in
  emit (Printed "Walker burn in finished, running {0} steps..."
                [of_nat nrun]) ;;;
  emit ResetChain ;;;
  emit (RunMCMC pos nrun) ;;;
  run <- lift (run_mcmc (reset sampler) pos nrun) ;;
  ret run.

(** *** Posterior summary *)

(** Lines 284-292: the ensemble of model curves. *)
Definition ensemble (s : Sampler) (modelidx : Z) (last_step : bool)
  : result (list (list float)) :=
  let curve (m : blob) :=
    bind_result (item m modelidx) (fun slot => item slot 1) in
  if last_step then
    bind_result (item (blobs s) (-1)) (fun step => map_result curve step)
  else map_result curve (List.concat (blobs s)).

(** Lines 303-309: one edge of a band, the order statistic of rank
    [int(fr * nwalkers)] at every point of the grid. *)
Definition band_edge (model : list (list float)) (npoints : nat) (fr : R)
  : result (list float) :=
  let nwalkers := List.length model in
  let nf := int_of (fr * INR nwalkers) in
  map_result (fun i =>
    bind_result (column model i) (fun col =>
    let ysort := np_sort col in
    item ysort nf)) (seq 0 npoints).

(** Lines 298-310 for one confidence level. *)
Definition band (model : list (list float)) (npoints : nat) (conf : R)
  : result (list float * list float) :=
  let fmin := norm_cdf (- conf) in
  let fmax := norm_cdf conf in
  bind_result (band_edge model npoints fmin) (fun ymin =>
  bind_result (band_edge model npoints fmax) (fun ymax =>
  Ok (ymin, ymax))).

Definition calc_fit_CI (s : Sampler) (modelidx : Z) (confs : list R)
    (last_step : bool)
  : M (list float * list (list float * list float) * list float) :=
  model <- lift (ensemble s modelidx last_step) ;;
  modelx <- lift (bind_result (item (blobs s) (-1)) (fun step =>
                  bind_result (item step 0) (fun m =>
                  bind_result (item m modelidx) (fun slot =>
                  item slot 0)))) ;;
  CI <- lift (map_result (band model (List.length modelx)) confs) ;;
  let MAPp := map mean (transpose (s_dim s) (flatchain s)) in
  let MAPvar := map std (transpose (s_dim s) (flatchain s)) in
  lpb <- lnprobfn s MAPp ;;
  let blob := snd lpb in
  slot <- lift (item blob modelidx) ;;
  model_MAP <- lift (item slot 1) ;;
  emit (Printed "MAP pars (mean, std):" []) ;;;
  print_each "{0:.2e} +/- {1:.2e}" (map2 (fun p v => [p; v]) MAPp MAPvar) ;;;
  ret (modelx, CI, model_MAP).

End Program.

(** ** Further definitions: energy bin edges, and what the properties of the
    remaining sections are stated with *)

(** A finite value that is at most zero. *)
Definition at_most_zero (x : float) : Prop :=
  match x with Fin r => r <= 0 | _ => False end.

Definition with_dflux (data : Data) (d : dflux_t) : Data :=
  mkData (ene data) (flux data) d (ul data) (cl data).

(** A symmetric uncertainty written in two equal columns. *)
Definition two_columns (d : list R) : dflux_t :=
  Asym (map (fun s => (s, s)) d).

(** [np.zeros_like] *)
Definition zeros_like (a : list float) : list float :=
  map (fun _ => Fin 0) a.

(** [a[1:] = v] and [a[:-1] = v] for [v] of the length of the slice *)
Definition assign_from_1 (a v : list float) : list float :=
  match a with
  | [] => []
  | x :: _ => x :: v
  end.

Definition assign_to_last (a v : list float) : list float :=
  match a with
  | [] => []
  | _ :: _ => v ++ [last a NaN]
  end.

(** [a[i] = v] with Python's rule for negative indices *)
Definition set_item (a : list float) (i : Z) (v : float)
  : result (list float) :=
  let n := Z.of_nat (List.length a) in
  if (0 <=? i)%Z then
    (if (i <? n)%Z then Ok (set_nth a (Z.to_nat i) v) else Err IndexError)
  else if (- n <=? i)%Z then Ok (set_nth a (Z.to_nat (n + i)) v)
  else Err IndexError.

(** Lines 393-400: the half-widths of the energy bins whose boundaries are
    the geometric means of neighbouring energies. *)
Definition generate_energy_edges (ene : list float)
  : result (list (float * float)) :=
  let midene := map fsqrt (map2 mul (tl ene) (removelast ene)) in
  let elo := zeros_like ene in
  let ehi := zeros_like ene in
  let elo := assign_from_1 elo (map2 sub (tl ene) midene) in
  let ehi := assign_to_last ehi (map2 sub midene (removelast ene)) in
  bind_result (item ehi 0) (fun ehi0 =>
  bind_result (set_item elo 0 ehi0) (fun elo =>
  bind_result (item elo (-1)) (fun elo_last =>
  bind_result (set_item ehi (-1) elo_last) (fun ehi =>
  Ok (combine elo ehi))))).

(** A prior that confines parameter 0 to the unit interval. *)
Definition unit_interval_prior : priorfunc :=
  fun pars => Ok (uniform_prior (nth 0 pars NaN) (Fin 0) (Fin 1)).

(** Of an array, at most component 1 differs. *)
Definition only_norm_changed (before after : list float) : Prop :=
  List.length after = List.length before /\
  forall i : nat, i <> 1%nat -> nth i after NaN = nth i before NaN.

(** A computation respects a relation between the world before and the
    world it leaves behind, whether it returns or raises. *)
Definition respects {A} (R : world -> world -> Prop) (m : M A) : Prop :=
  forall w, R w (final_world (m w)).

Definition same_arrays (w w' : world) : Prop := arrays w' = arrays w.

Definition norm_frame (p0 : loc) (w w' : world) : Prop :=
  (forall l : loc, l <> p0 -> arrays w' l = arrays w l) /\
  only_norm_changed (arrays w p0) (arrays w' p0).

(** The geometric means of neighbouring energies. *)
Definition geometric_means (es : list R) : list R :=
  map2 (fun a b => sqrt (a * b)) (tl es) (removelast es).

(** A real that is not negative, as a float. *)
Definition not_negative (x : float) : Prop :=
  match x with Fin r => 0 <= r | _ => False end.

(** A sampler that has not run yet. *)
Definition fresh_sampler : Sampler :=
  EnsembleSampler 2 1 (one_measured, constant_model [Fin 2], flatprior) 1.



(** ** Helper facts on the arithmetic *)

Ltac decide_reals :=
  unfold Rltb, Rleb, Reqb in *;
  repeat match goal with
  | |- context [Rlt_dec ?a ?b] => destruct (Rlt_dec a b)
  | |- context [Rle_dec ?a ?b] => destruct (Rle_dec a b)
  | |- context [Req_dec_T ?a ?b] => destruct (Req_dec_T a b)
  | H : context [Rlt_dec ?a ?b] |- _ => destruct (Rlt_dec a b)
  | H : context [Rle_dec ?a ?b] |- _ => destruct (Rle_dec a b)
  | H : context [Req_dec_T ?a ?b] |- _ => destruct (Req_dec_T a b)
  end.

Ltac float_cases :=
  cbn [neg add sub mul div sqr log fsqrt gtb leb of_Z of_nat scale_inf
       int_of_bool negb finite] in *;
  decide_reals;
  try solve [ reflexivity | discriminate | contradiction
            | exfalso; lra | f_equal; lra | f_equal; field; lra ].

Lemma Rltb_true (a b : R) : a < b -> Rltb a b = true.
Proof. intros; decide_reals; [reflexivity | contradiction]. Qed.

Lemma Rltb_false (a b : R) : ~ a < b -> Rltb a b = false.
Proof. intros; decide_reals; [contradiction | reflexivity]. Qed.

Lemma Rleb_true (a b : R) : a <= b -> Rleb a b = true.
Proof. intros; decide_reals; [reflexivity | contradiction]. Qed.

Lemma Rleb_false (a b : R) : ~ a <= b -> Rleb a b = false.
Proof. intros; decide_reals; [contradiction | reflexivity]. Qed.

Lemma Reqb_true (a b : R) : a = b -> Reqb a b = true.
Proof. intros; decide_reals; [reflexivity | contradiction]. Qed.

Lemma Reqb_false (a b : R) : a <> b -> Reqb a b = false.
Proof. intros; decide_reals; [contradiction | reflexivity]. Qed.

Lemma add_zero_l (x : float) : add (Fin 0) x = x.
Proof. destruct x; float_cases. Qed.

(** The selected uncertainty as the source computes it, with the 0/1
    weights [loerr] and [hierr]. *)
Lemma weighted_error (s : bool) (lo hi : R) :
  add (mul (of_Z (int_of_bool (negb s))) (Fin lo))
      (mul (of_Z (int_of_bool s)) (Fin hi))
  = Fin (upper_when_above s (lo, hi)).
Proof. destruct s; cbn; f_equal; lra. Qed.

(** ** The likelihood: masks against points *)

Lemma mask_cons {A} (x : A) (xs : list A) (b : bool) (bs : list bool) :
  mask (x :: xs) (b :: bs) = if b then x :: mask xs bs else mask xs bs.
Proof. unfold mask; cbn; now destruct b. Qed.

Lemma terms_sym (pick : convention) (uls : list bool) :
  forall (model : list float) (fl d : list R),
    List.length fl = List.length model ->
    List.length d = List.length model ->
    List.length uls = List.length model ->
    map2 (fun x e => div (neg (sqr x)) (mul (Fin 2) (sqr e)))
         (map2 sub (mask model (map negb uls))
                   (mask (arr fl) (map negb uls)))
         (arr (mask d (map negb uls)))
    = map (gauss_term pick)
          (filter measured (zip_points model fl (map inl d) uls)).
Proof.
  induction uls as [|u uls IH]; intros model fl d Hf Hd Hu.
  - destruct model; [|discriminate]. reflexivity.
  - destruct model as [|m model]; [discriminate|].
    destruct fl as [|f fl]; [discriminate|].
    destruct d as [|s d]; [discriminate|].
    cbn [map arr zip_points filter measured p_ul].
    unfold arr in *. cbn [map]. rewrite !mask_cons.
    specialize (IH model fl d).
    cbn [List.length] in *.
    destruct u; cbn [negb map map2 filter measured p_ul]; [apply IH; lia|].
    f_equal. apply IH; lia.
Qed.

Lemma terms_asym (uls : list bool) :
  forall (model : list float) (fl : list R) (d : list (R * R)),
    List.length fl = List.length model ->
    List.length d = List.length model ->
    List.length uls = List.length model ->
    let diffs := map2 sub (mask model (map negb uls))
                          (mask (arr fl) (map negb uls)) in
    let sign := map (fun x => gtb x (Fin 0)) diffs in
    map2 (fun x e => div (neg (sqr x)) (mul (Fin 2) (sqr e))) diffs
      (map2 add
         (map2 (fun k e => mul (of_Z k) e)
               (map (fun s => int_of_bool (negb s)) sign)
               (arr (map fst (mask d (map negb uls)))))
         (map2 (fun k e => mul (of_Z k) e)
               (map (fun s => int_of_bool s) sign)
               (arr (map snd (mask d (map negb uls))))))
    = map (gauss_term upper_when_above)
          (filter measured (zip_points model fl (map inr d) uls)).
Proof.
  induction uls as [|u uls IH]; intros model fl d Hf Hd Hu.
  - destruct model; [|discriminate]. reflexivity.
  - destruct model as [|m model]; [discriminate|].
    destruct fl as [|f fl]; [discriminate|].
    destruct d as [|[lo hi] d]; [discriminate|].
    cbn [map arr zip_points filter measured p_ul].
    unfold arr in *. cbn [map]. rewrite !mask_cons.
    specialize (IH model fl d).
    cbn [List.length] in *. cbn zeta in *.
    destruct u; cbn [negb map map2 fst snd filter measured p_ul];
      [apply IH; lia|].
    f_equal; [|apply IH; lia].
    rewrite weighted_error. reflexivity.
Qed.

Lemma logprob_terms_points (model : list float) (data : Data) :
  aligned model data ->
  logprob_terms model data
  = map (gauss_term upper_when_above) (filter measured (points model data)).
Proof.
  intros (Hf & Hd & Hu). unfold logprob_terms, points.
  destruct (dflux data) as [d|d]; cbn [dflux_len uncertainties] in *.
  - now apply terms_sym.
  - now apply (terms_asym (ul data)).
Qed.

Lemma count_true_points (uls : list bool) :
  forall (model : list float) (fl : list R) (errs : list (R + R * R)),
    List.length fl = List.length model ->
    List.length errs = List.length model ->
    List.length uls = List.length model ->
    count_true uls = List.length (filter p_ul (zip_points model fl errs uls)).
Proof.
  unfold count_true.
  induction uls as [|u uls IH]; intros model fl errs Hf He Hu.
  - destruct model; [|discriminate]. reflexivity.
  - destruct model as [|m model]; [discriminate|].
    destruct fl as [|f fl]; [discriminate|].
    destruct errs as [|e errs]; [discriminate|].
    cbn [List.length] in *. cbn [zip_points filter p_ul].
    destruct u; cbn [List.length]; [f_equal|]; apply IH; lia.
Qed.

Lemma violated_points (uls : list bool) :
  forall (model : list float) (fl : list R) (errs : list (R + R * R)),
    List.length fl = List.length model ->
    List.length errs = List.length model ->
    List.length uls = List.length model ->
    count_true (map2 gtb (mask model uls) (mask (arr fl) uls))
    = List.length (filter violated (zip_points model fl errs uls)).
Proof.
  unfold count_true.
  induction uls as [|u uls IH]; intros model fl errs Hf He Hu.
  - destruct model; [|discriminate]. reflexivity.
  - destruct model as [|m model]; [discriminate|].
    destruct fl as [|f fl]; [discriminate|].
    destruct errs as [|e errs]; [discriminate|].
    cbn [List.length] in *. unfold arr in *.
    cbn [zip_points filter violated p_ul p_model p_flux map andb].
    rewrite !mask_cons. specialize (IH model fl errs).
    destruct u; cbn [andb map2 filter]; unfold violated at 1;
      cbn [andb p_ul p_model p_flux]; [|apply IH; lia].
    destruct (gtb m (Fin f)); cbn [List.length];
      [f_equal|]; apply IH; lia.
Qed.

Lemma uncertainties_length (d : dflux_t) :
  List.length (uncertainties d) = dflux_len d.
Proof. destruct d; cbn; now rewrite length_map. Qed.

Lemma upper_limit_count_eq (model : list float) (data : Data) :
  aligned model data ->
  count_true (ul data) = upper_limit_count model data.
Proof.
  intros (Hf & Hd & Hu). unfold upper_limit_count, points.
  apply count_true_points; auto. now rewrite uncertainties_length.
Qed.

Lemma violated_uls_eq (model : list float) (data : Data) :
  aligned model data ->
  violated_uls model data = violated_count model data.
Proof.
  intros (Hf & Hd & Hu). unfold violated_uls, violated_count, points.
  apply violated_points; auto. now rewrite uncertainties_length.
Qed.

Lemma fold_add_finite (xs : list float) :
  forall acc, finite acc -> Forall finite xs -> finite (fold_left add xs acc).
Proof.
  induction xs as [|x xs IH]; intros acc Ha Hxs; [exact Ha|].
  inversion Hxs; subst. cbn [fold_left]. apply IH; auto.
  destruct acc, x; cbn in *; auto.
Qed.

Lemma sum_finite (xs : list float) : Forall finite xs -> finite (sum xs).
Proof. intros; apply fold_add_finite; cbn; auto. Qed.

Lemma points_model_finite (model : list float) :
  Forall finite model ->
  forall fl errs uls,
    Forall (fun p => finite (p_model p)) (zip_points model fl errs uls).
Proof.
  induction 1 as [|m model Hm Hrest IH]; intros fl errs uls; [constructor|].
  destruct fl, errs, uls; try constructor; auto.
Qed.

Lemma gauss_term_finite (pick : convention) (p : point) :
  finite (p_model p) -> sigma_of pick p <> 0 -> finite (gauss_term pick p).
Proof.
  unfold gauss_term, difference. intros Hm Hs.
  destruct (p_model p) as [a| | |]; try contradiction.
  set (s := sigma_of pick p) in *.
  cbn [sub neg add sqr mul div].
  rewrite Reqb_false; [exact I|]. nra.
Qed.

Ltac eval_reals :=
  repeat first
    [ rewrite Rltb_true by lra
    | rewrite Rltb_false by lra
    | rewrite Rleb_true by lra
    | rewrite Rleb_false by lra
    | rewrite Reqb_true by lra
    | rewrite Reqb_false by lra ].

Ltac eval_float :=
  repeat (cbn [neg add sub mul div sqr log fsqrt gtb leb of_Z of_nat
               scale_inf int_of_bool negb andb fold_left map filter
               List.length fst snd];
          eval_reals).

(** ** C1: the measured points *)

(** C1 (as amended).  For an index-aligned observation set and model array,
    the contribution of the points that are not upper limits is the sum over
    those points of [-difference^2 / (2 sigma^2)] with
    [difference = model - observed flux]; with a 2-column uncertainty,
    [sigma] is the upper error (column 1) where [difference > 0] and the
    lower error (column 0) elsewhere; with a single column it is the
    symmetric uncertainty. *)
Theorem measured_contribution (model : list float) (data : Data) :
  aligned model data ->
  sum (logprob_terms model data) = gauss_total upper_when_above model data.
Proof.
  intros H. unfold gauss_total. now rewrite logprob_terms_points.
Qed.

Lemma measured_contribution_witness :
  aligned [Fin 2] one_measured /\
  sum (logprob_terms [Fin 2] one_measured)
  = gauss_total upper_when_above [Fin 2] one_measured.
Proof.
  assert (H : aligned [Fin 2] one_measured) by (repeat split; reflexivity).
  split; [exact H | exact (measured_contribution _ _ H)].
Defined.

(** C1 as stated fails: with the model above a point whose lower error is 1
    and upper error is 2, the code divides by twice the square of the upper
    error, and the claimed convention by twice the square of the lower. *)
Lemma lower_when_above_refuted :
  aligned [Fin 2] one_measured /\
  sum (logprob_terms [Fin 2] one_measured) = Fin (- (1 / 8)) /\
  gauss_total lower_when_above [Fin 2] one_measured = Fin (- (1 / 2)) /\
  sum (logprob_terms [Fin 2] one_measured)
  <> gauss_total lower_when_above [Fin 2] one_measured.
Proof.
  assert (H : aligned [Fin 2] one_measured) by (repeat split; reflexivity).
  assert (Hc : sum (logprob_terms [Fin 2] one_measured) = Fin (- (1 / 8))).
  { rewrite (logprob_terms_points _ _ H).
    cbn [points one_measured flux dflux ul uncertainties map zip_points
         filter measured p_ul negb].
    unfold sum, gauss_term, sigma_of, difference, upper_when_above.
    cbn [p_err p_model p_flux]. eval_float. f_equal; lra. }
  assert (Hs : gauss_total lower_when_above [Fin 2] one_measured
               = Fin (- (1 / 2))).
  { unfold gauss_total.
    cbn [points one_measured flux dflux ul uncertainties map zip_points
         filter measured p_ul negb].
    unfold sum, gauss_term, sigma_of, difference, lower_when_above.
    cbn [p_err p_model p_flux]. eval_float. f_equal; lra. }
  repeat split; auto.
  rewrite Hc, Hs. intros E; injection E; lra.
Qed.

(** ** C2: the upper limits *)

Lemma logprob_terms_with_cl (model : list float) (data : Data) (c : R) :
  logprob_terms model (with_cl data c) = logprob_terms model data.
Proof. reflexivity. Qed.

Lemma lnprobmodel_points (model : list float) (data : Data) :
  aligned model data ->
  lnprobmodel model data
  = (if (0 <? upper_limit_count model data)%nat then
       add (sum (logprob_terms model data))
           (mul (of_nat (violated_count model data))
                (log (sub (Fin 1) (Fin (cl data)))))
     else sum (logprob_terms model data)).
Proof.
  intros H. unfold lnprobmodel.
  now rewrite (upper_limit_count_eq _ _ H), (violated_uls_eq _ _ H).
Qed.

(** C2.  The upper limits add (number of upper-limit points with
    [model > observed flux]) times [log(1 - confidence level)] to the
    contribution of the measured points; without any upper-limit point
    nothing is added, and the returned value does not depend on the
    confidence level. *)
Theorem upper_limit_contribution (model : list float) (data : Data) :
  aligned model data ->
  lnprobmodel model data
  = (if (0 <? upper_limit_count model data)%nat then
       add (sum (logprob_terms model data))
           (mul (of_nat (violated_count model data))
                (log (sub (Fin 1) (Fin (cl data)))))
     else sum (logprob_terms model data))
  /\ (upper_limit_count model data = 0%nat ->
      forall c : R,
        lnprobmodel model (with_cl data c) = lnprobmodel model data).
Proof.
  intros H. split.
  - now apply lnprobmodel_points.
  - intros Hz c. unfold lnprobmodel.
    rewrite logprob_terms_with_cl.
    cbn [with_cl ul].
    rewrite (upper_limit_count_eq _ _ H), Hz. reflexivity.
Qed.

Lemma upper_limit_contribution_witness :
  aligned [Fin 2] one_limit /\
  (lnprobmodel [Fin 2] one_limit
   = (if (0 <? upper_limit_count [Fin 2] one_limit)%nat then
        add (sum (logprob_terms [Fin 2] one_limit))
            (mul (of_nat (violated_count [Fin 2] one_limit))
                 (log (sub (Fin 1) (Fin (cl one_limit)))))
      else sum (logprob_terms [Fin 2] one_limit))
   /\ (upper_limit_count [Fin 2] one_limit = 0%nat ->
       forall c : R,
         lnprobmodel [Fin 2] (with_cl one_limit c)
         = lnprobmodel [Fin 2] one_limit)).
Proof.
  assert (H : aligned [Fin 2] one_limit) by (repeat split; reflexivity).
  split; [exact H | exact (upper_limit_contribution _ _ H)].
Defined.

(** ** C3: finiteness *)

Lemma one_limit_value : lnprobmodel [Fin 2] one_limit = NInf.
Proof.
  unfold lnprobmodel, violated_uls, logprob_terms, sum, count_true, mask.
  cbn [one_limit ul flux dflux cl arr map combine filter snd fst map2
       List.length Nat.ltb Nat.leb fold_left negb].
  unfold of_nat. eval_float.
  unfold scale_inf. change (INR 1) with 1. eval_float. reflexivity.
Qed.

(** C3 as stated fails: every input is finite, the model exceeds the single
    upper limit, the confidence level is 1, and the result is [-inf]. *)
Lemma finite_inputs_infinite_result :
  Forall finite [Fin 2] /\ aligned [Fin 2] one_limit /\
  lnprobmodel [Fin 2] one_limit = NInf /\
  ~ finite (lnprobmodel [Fin 2] one_limit).
Proof.
  rewrite one_limit_value.
  repeat split; try reflexivity; [|intros []].
  repeat constructor.
Qed.

(** C3 (as amended).  In exact arithmetic, a finite model array and an
    index-aligned observation set give a finite log-likelihood provided the
    uncertainty serving each measured point is not zero and, when the set
    has an upper-limit point, the confidence level is below 1. *)
Theorem lnprobmodel_finite (model : list float) (data : Data) :
  Forall finite model ->
  aligned model data ->
  errors_nonzero model data ->
  ((0 < upper_limit_count model data)%nat -> cl data < 1) ->
  finite (lnprobmodel model data).
Proof.
  intros Hm Ha Hs Hcl.
  assert (Hsum : finite (sum (logprob_terms model data))).
  { apply sum_finite. rewrite (logprob_terms_points _ _ Ha).
    apply Forall_map. unfold errors_nonzero in Hs.
    pose proof (points_model_finite model Hm (flux data)
                  (uncertainties (dflux data)) (ul data)) as Hp.
    fold (points model data) in Hp.
    induction (points model data) as [|p ps IH]; [constructor|].
    inversion Hs; inversion Hp; subst. cbn [filter].
    destruct (measured p) eqn:E; auto.
    constructor; auto. apply gauss_term_finite; auto. }
  rewrite (lnprobmodel_points model data Ha).
  destruct (0 <? upper_limit_count model data)%nat eqn:E; [|exact Hsum].
  apply Nat.ltb_lt in E. specialize (Hcl E).
  destruct (sum (logprob_terms model data)); try contradiction.
  unfold of_nat. eval_float. exact I.
Qed.

Lemma lnprobmodel_finite_witness :
  Forall finite [Fin 2; Fin 4] /\
  aligned [Fin 2; Fin 4] two_points /\
  errors_nonzero [Fin 2; Fin 4] two_points /\
  ((0 < upper_limit_count [Fin 2; Fin 4] two_points)%nat
   -> cl two_points < 1) /\
  finite (lnprobmodel [Fin 2; Fin 4] two_points).
Proof.
  assert (Hm : Forall finite [Fin 2; Fin 4]) by (repeat constructor).
  assert (Ha : aligned [Fin 2; Fin 4] two_points)
    by (repeat split; reflexivity).
  assert (Hs : errors_nonzero [Fin 2; Fin 4] two_points).
  { unfold errors_nonzero. cbn.
    repeat constructor; unfold sigma_of; cbn; intros; lra. }
  assert (Hc : (0 < upper_limit_count [Fin 2; Fin 4] two_points)%nat
               -> cl two_points < 1) by (intros _; cbn; lra).
  repeat split; auto.
  exact (lnprobmodel_finite _ _ Hm Ha Hs Hc).
Defined.

(** ** C4: the posterior function *)

(** C4.  When the evaluators return, [lnprob] returns the pair of
    log-likelihood plus log-prior and the blob: for a bare flux array the
    blob holds, as its one slot, the synthesized pair (energy grid, flux
    array); for a tuple it is the tuple of the extra payload elements,
    unchanged.  The only effect is the progress record. *)
Theorem lnprob_returns (pars : list float) (data : Data)
    (model_f : modelfunc) (prior_f : priorfunc) (lp : float) (w : world) :
  prior_f pars = Ok lp ->
  (forall m, model_f pars data = Ok (Bare m) ->
     lnprob pars data model_f prior_f w
     = Ret (add (lnprobmodel m data) lp, [[arr (ene data); m]])
           (mkWorld (arrays w)
              (printed w ++ [Progress pars (add (lnprobmodel m data) lp)])))
  /\
  (forall m extra, model_f pars data = Ok (Tuple m extra) ->
     lnprob pars data model_f prior_f w
     = Ret (add (lnprobmodel m data) lp, extra)
           (mkWorld (arrays w)
              (printed w ++ [Progress pars (add (lnprobmodel m data) lp)]))).
Proof.
  intros Hp. split; [intros m Hm | intros m extra Hm];
    unfold lnprob, bind; rewrite Hm; cbn [lift ret];
    rewrite Hp; reflexivity.
Qed.

(** ** C5: the normal prior *)

Lemma normal_prior_value (v m s : R) :
  s <> 0 ->
  normal_prior (Fin v) (Fin m) (Fin s)
  = Fin (- (1 / 2) * (2 * PI * s) - (v - m) * (v - m) / (2 * s)).
Proof.
  intros Hs. unfold normal_prior. eval_float. reflexivity.
Qed.

(** C5, evaluated on the code at value 1, mean 0, sigma 2.  The penalty
    relative to the value at the mean is [1/4 = (value-mean)^2 / (2 sigma)],
    not [1/8 = (value-mean)^2 / (2 sigma^2)]: no constant makes the result
    [-(1/2) (value-mean)^2 / sigma^2] plus that constant. *)
Theorem normal_prior_divides_by_sigma :
  normal_prior (Fin 1) (Fin 0) (Fin 2) = Fin (- (2 * PI) - 1 / 4) /\
  normal_prior (Fin 0) (Fin 0) (Fin 2) = Fin (- (2 * PI)) /\
  ~ (exists c : R, forall v : R,
       normal_prior (Fin v) (Fin 0) (Fin 2)
       = Fin (- (1 / 2) * (v - 0) ^ 2 / 2 ^ 2 + c)).
Proof.
  repeat split.
  - rewrite normal_prior_value by lra. f_equal; lra.
  - rewrite normal_prior_value by lra. f_equal; lra.
  - intros [c Hc].
    pose proof (Hc 0) as H0. pose proof (Hc 1) as H1.
    rewrite normal_prior_value in H0, H1 by lra.
    injection H0 as H0. injection H1 as H1. lra.
Qed.

(** ** C4, at an input *)

Lemma lnprob_returns_witness :
  flatprior [Fin 1] = Ok (Fin 0) /\
  lnprob [Fin 1] one_measured (constant_model [Fin 2]) flatprior at_import
  = Ret (add (lnprobmodel [Fin 2] one_measured) (Fin 0),
         [[arr (ene one_measured); [Fin 2]]])
        (mkWorld (arrays at_import)
           (printed at_import
            ++ [Progress [Fin 1]
                  (add (lnprobmodel [Fin 2] one_measured) (Fin 0))])).
Proof.
  split; [reflexivity|].
  exact (proj1 (lnprob_returns [Fin 1] one_measured (constant_model [Fin 2])
                  flatprior (Fin 0) at_import eq_refl)
               [Fin 2] eq_refl).
Defined.

Section Properties.

Variable power : float -> float -> float.
Variable norm_cdf : R -> R.
Variable sample_ball : list float -> list float -> nat -> list (list float).
Variable run_mcmc :
  Sampler -> list (list float) -> nat -> result (Sampler * list (list float)).

(** ** C6: no data *)

(** C6.  Without a data set [get_sampler] prints its complaint and raises
    [TypeError] at once: nothing else is printed, no array is touched, no
    likelihood is evaluated, no walker is drawn and no sampling step is
    run.  [run_sampler], given no sampler or no positions, fails the same
    way through it. *)
Theorem get_sampler_needs_data (nwalkers nburn : nat) (guess : bool)
    (p0 : loc) (model_f : modelfunc) (prior_f : priorfunc) (threads : nat)
    (w : world) :
  get_sampler sample_ball run_mcmc nwalkers nburn guess p0 None model_f
    prior_f threads w
  = Exc TypeError
        (mkWorld (arrays w) (printed w ++ [Printed "Need to provide data!" []]))
  /\
  (forall (nrun : nat) (pos : option (list (list float))),
     run_sampler sample_ball run_mcmc nrun None pos
       (mkKwargs nwalkers nburn guess p0 None model_f prior_f threads) w
     = Exc TypeError
         (mkWorld (arrays w)
            (printed w ++ [Printed "Need to provide data!" []])))
  /\
  (forall (nrun : nat) (s : option Sampler),
     run_sampler sample_ball run_mcmc nrun s None
       (mkKwargs nwalkers nburn guess p0 None model_f prior_f threads) w
     = Exc TypeError
         (mkWorld (arrays w)
            (printed w ++ [Printed "Need to provide data!" []]))).
Proof.
  split; [reflexivity | split].
  - intros nrun pos. reflexivity.
  - intros nrun [s|]; reflexivity.
Qed.

(** ** C10: the guess is rescaled in place *)


Lemma item_0 {A} (x : A) (xs : list A) : item (x :: xs) 0 = Ok x.
Proof. reflexivity. Qed.

Lemma item_1 {A} (x y : A) (xs : list A) : item (x :: y :: xs) 1 = Ok y.
Proof. reflexivity. Qed.

Lemma set_heap_same (h : heap) (l : loc) (v : list float) :
  set_heap h l v l = v.
Proof. unfold set_heap. now rewrite Nat.eqb_refl. Qed.

Lemma set_heap_other (h : heap) (l l' : loc) (v : list float) :
  l' <> l -> set_heap h l v l' = h l'.
Proof.
  intros H. unfold set_heap. apply Nat.eqb_neq in H. now rewrite H.
Qed.



(** ** Sorting *)

Lemma sort_leb_total (x y : float) :
  sort_leb x y = false -> sort_leb y x = true.
Proof.
  destruct x, y; cbn; try discriminate; try reflexivity.
  decide_reals; try discriminate; try reflexivity. lra.
Qed.

Lemma sort_leb_trans (x y z : float) : sle x y -> sle y z -> sle x z.
Proof.
  unfold sle. destruct x, y, z; cbn; try discriminate; try reflexivity.
  decide_reals; try discriminate; try reflexivity. lra.
Qed.

Lemma sort_leb_refl (x : float) : sle x x.
Proof.
  unfold sle. destruct x; cbn; try reflexivity.
  decide_reals; [reflexivity | lra].
Qed.

Lemma sle_finite (x y : float) : finite x -> finite y -> sle x y -> fle x y.
Proof. destruct x, y; cbn; try contradiction. auto. Qed.

Lemma insert_sorted_Forall (P : float -> Prop) (x : float)
    (xs : list float) :
  P x -> Forall P xs -> Forall P (insert_sorted x xs).
Proof.
  intros Hx. induction 1 as [|y ys Hy Hys IH]; cbn; [auto|].
  destruct (sort_leb x y); auto.
Qed.

Lemma insert_sorted_length (x : float) (xs : list float) :
  List.length (insert_sorted x xs) = S (List.length xs).
Proof.
  induction xs as [|y ys IH]; cbn; [reflexivity|].
  destruct (sort_leb x y); cbn; auto.
Qed.

Lemma insert_sorted_sorted (x : float) (xs : list float) :
  StronglySorted sle xs -> StronglySorted sle (insert_sorted x xs).
Proof.
  induction 1 as [|y ys Hs IH Hy]; cbn.
  - repeat constructor.
  - destruct (sort_leb x y) eqn:E.
    + constructor; [constructor; auto|].
      constructor; [exact E|].
      eapply Forall_impl; [|exact Hy].
      intros z Hz. now apply sort_leb_trans with y.
    + constructor; [exact IH|].
      apply insert_sorted_Forall; [|exact Hy].
      now apply sort_leb_total.
Qed.

Lemma np_sort_sorted (xs : list float) : StronglySorted sle (np_sort xs).
Proof.
  induction xs as [|x xs IH]; [constructor|].
  change (np_sort (x :: xs)) with (insert_sorted x (np_sort xs)).
  now apply insert_sorted_sorted.
Qed.

Lemma np_sort_length (xs : list float) :
  List.length (np_sort xs) = List.length xs.
Proof.
  induction xs as [|x xs IH]; [reflexivity|].
  change (np_sort (x :: xs)) with (insert_sorted x (np_sort xs)).
  now rewrite insert_sorted_length, IH.
Qed.

Lemma np_sort_Forall (P : float -> Prop) (xs : list float) :
  Forall P xs -> Forall P (np_sort xs).
Proof.
  induction 1 as [|x xs Hx Hxs IH]; [constructor|].
  change (np_sort (x :: xs)) with (insert_sorted x (np_sort xs)).
  now apply insert_sorted_Forall.
Qed.

Lemma sorted_nth (xs : list float) :
  StronglySorted sle xs ->
  forall i j, (i <= j < List.length xs)%nat ->
    sle (nth i xs NaN) (nth j xs NaN).
Proof.
  induction 1 as [|x xs Hs IH Hx]; intros i j Hij; cbn in Hij; [lia|].
  destruct i, j; cbn [nth]; try lia.
  - apply sort_leb_refl.
  - rewrite Forall_forall in Hx. apply Hx, nth_In. lia.
  - apply IH. lia.
Qed.

(** Order statistics of a finite sample grow with the rank. *)
Lemma order_statistics_monotone (xs : list float) (i j : nat) :
  Forall finite xs -> (i <= j < List.length xs)%nat ->
  fle (nth i (np_sort xs) NaN) (nth j (np_sort xs) NaN).
Proof.
  intros Hf Hij.
  pose proof (np_sort_Forall finite xs Hf) as Hfs.
  rewrite Forall_forall in Hfs.
  apply sle_finite.
  - apply Hfs, nth_In. rewrite np_sort_length. lia.
  - apply Hfs, nth_In. rewrite np_sort_length. lia.
  - apply (sorted_nth _ (np_sort_sorted xs)). rewrite np_sort_length. lia.
Qed.

(** ** Indexing and truncation *)

Lemma item_Z {A} (xs : list A) (z : Z) (d : A) :
  (0 <= z < Z.of_nat (List.length xs))%Z ->
  item xs z = Ok (nth (Z.to_nat z) xs d).
Proof.
  intros Hz. unfold item, index.
  destruct (Z.leb_spec 0 z) as [_|]; [|lia].
  rewrite (nth_error_nth' xs d) by lia. reflexivity.
Qed.

Lemma item_nat {A} (xs : list A) (i : nat) (d : A) :
  (i < List.length xs)%nat -> item xs (Z.of_nat i) = Ok (nth i xs d).
Proof.
  intros Hi. rewrite (item_Z xs (Z.of_nat i) d) by lia.
  now rewrite Nat2Z.id.
Qed.

Lemma map_result_ok {A B} (f : A -> result B) (g : A -> B) (xs : list A) :
  (forall x, In x xs -> f x = Ok (g x)) -> map_result f xs = Ok (map g xs).
Proof.
  induction xs as [|x xs IH]; intros H; [reflexivity|].
  cbn [map_result map]. rewrite (H x) by (left; reflexivity).
  cbn [bind_result]. rewrite IH; [reflexivity|].
  intros y Hy. apply H. now right.
Qed.

Lemma column_ok (model : list (list float)) (npoints i : nat) :
  rectangular model npoints -> (i < npoints)%nat ->
  column model i = Ok (values_at model i).
Proof.
  intros Hr Hi. unfold column, values_at. apply map_result_ok.
  intros row Hrow. unfold rectangular in Hr. rewrite Forall_forall in Hr.
  apply item_nat. rewrite (Hr row Hrow). exact Hi.
Qed.

Lemma values_at_length (model : list (list float)) (i : nat) :
  List.length (values_at model i) = List.length model.
Proof. unfold values_at. apply length_map. Qed.

Lemma values_at_finite (model : list (list float)) (npoints i : nat) :
  rectangular model npoints -> Forall (Forall finite) model ->
  (i < npoints)%nat -> Forall finite (values_at model i).
Proof.
  intros Hr Hf Hi. unfold values_at. apply Forall_map.
  unfold rectangular in Hr. rewrite Forall_forall in *.
  intros row Hrow. specialize (Hf row Hrow). rewrite Forall_forall in Hf.
  apply Hf, nth_In. rewrite (Hr row Hrow). exact Hi.
Qed.

Lemma int_of_bounds (x : R) (n : nat) :
  0 <= x < INR n -> (0 <= int_of x < Z.of_nat n)%Z.
Proof.
  intros [H0 Hn]. unfold int_of. destruct (Rle_dec 0 x); [|contradiction].
  destruct (base_Int_part x) as [Hlo Hhi]. rewrite INR_IZR_INZ in Hn.
  split.
  - assert (IZR (-1) < IZR (Int_part x)) by lra.
    apply lt_IZR in H. lia.
  - apply lt_IZR. lra.
Qed.

Lemma int_of_monotone (x y : R) :
  0 <= x <= y -> (int_of x <= int_of y)%Z.
Proof.
  intros [H0 Hxy]. unfold int_of.
  destruct (Rle_dec 0 x); [|contradiction].
  destruct (Rle_dec 0 y); [|lra].
  destruct (base_Int_part x) as [Hx _].
  destruct (base_Int_part y) as [_ Hy].
  assert (IZR (Int_part x) < IZR (Int_part y + 1)) by (rewrite plus_IZR; lra).
  apply lt_IZR in H. lia.
Qed.

Lemma int_of_half (n : nat) : int_of (1 / 2 * INR n) = Z.of_nat (n / 2).
Proof.
  pose proof (pos_INR n) as Hn. unfold int_of.
  destruct (Rle_dec 0 (1 / 2 * INR n)); [|lra].
  symmetry. apply Int_part_spec.
  rewrite <- INR_IZR_INZ.
  pose proof (Nat.div_mod_eq n 2) as E.
  assert (Hr : (n mod 2 < 2)%nat) by (apply Nat.mod_upper_bound; lia).
  assert (En : INR n = 2 * INR (n / 2) + INR (n mod 2)).
  { rewrite E at 1. rewrite plus_INR, mult_INR. reflexivity. }
  assert (Hm : 0 <= INR (n mod 2) <= 1).
  { split; [apply pos_INR|].
    change 1 with (INR 1). apply le_INR. lia. }
  lra.
Qed.

(** The rank [int(fr * nwalkers)] of a band edge. *)
Lemma band_edge_ok (model : list (list float)) (npoints : nat) (fr : R) :
  model <> [] -> rectangular model npoints -> 0 <= fr < 1 ->
  band_edge model npoints fr
  = Ok (map (fun i =>
              nth (Z.to_nat (int_of (fr * INR (List.length model))))
                  (np_sort (values_at model i)) NaN)
            (seq 0 npoints)).
Proof.
  intros Hne Hr Hfr. unfold band_edge. apply map_result_ok.
  intros i Hi. apply in_seq in Hi.
  rewrite (column_ok model npoints i Hr) by lia. cbn [bind_result].
  apply item_Z. rewrite np_sort_length, values_at_length.
  apply int_of_bounds.
  assert (0 < INR (List.length model)).
  { apply lt_0_INR. destruct model; [contradiction | cbn; lia]. }
  split; nra.
Qed.

Lemma Forall2_map_seq {B} (P : B -> B -> Prop) (f g : nat -> B)
    (xs : list nat) :
  (forall i, In i xs -> P (f i) (g i)) -> Forall2 P (map f xs) (map g xs).
Proof.
  induction xs as [|x xs IH]; intros H; cbn; constructor.
  - apply H. now left.
  - apply IH. intros i Hi. apply H. now right.
Qed.

(** ** C7 and C8: the bands *)

Lemma band_at_zero (model : list (list float)) (npoints : nat) :
  norm_cdf 0 = 1 / 2 ->
  model <> [] -> rectangular model npoints ->
  band norm_cdf model npoints 0
  = Ok (map (fun i => upper_median (values_at model i)) (seq 0 npoints),
        map (fun i => upper_median (values_at model i)) (seq 0 npoints)).
Proof.
  intros H0 Hne Hr. unfold band. rewrite Ropp_0, H0.
  rewrite (band_edge_ok model npoints (1 / 2) Hne Hr) by lra.
  cbn [bind_result]. rewrite int_of_half, Nat2Z.id.
  unfold upper_median.
  rewrite (map_ext (fun i => nth (List.length (values_at model i) / 2)
                               (np_sort (values_at model i)) NaN)
                   (fun i => nth (List.length model / 2)
                               (np_sort (values_at model i)) NaN));
    [reflexivity|].
  intros i. now rewrite values_at_length.
Qed.

Lemma upper_median_odd (xs : list float) :
  Nat.odd (List.length xs) = true -> upper_median xs = np_median xs.
Proof.
  intros Ho. unfold np_median, upper_median.
  rewrite <- Nat.negb_odd, Ho. reflexivity.
Qed.

(** C7 (as amended).  At confidence level 0 the lower and the upper band
    coincide: at every grid point both are the order statistic of rank
    [n / 2] of the [n] values of the ensemble there.  That is the median
    when [n] is odd; when [n] is even it is the upper of the two middle
    values, not their mean. *)
Theorem degenerate_band (model : list (list float)) (npoints : nat) :
  norm_cdf 0 = 1 / 2 ->
  model <> [] -> rectangular model npoints ->
  band norm_cdf model npoints 0
  = Ok (map (fun i => upper_median (values_at model i)) (seq 0 npoints),
        map (fun i => upper_median (values_at model i)) (seq 0 npoints))
  /\ (Nat.odd (List.length model) = true ->
      map (fun i => upper_median (values_at model i)) (seq 0 npoints)
      = map (fun i => np_median (values_at model i)) (seq 0 npoints)).
Proof.
  intros H0 Hne Hr. split; [now apply band_at_zero|].
  intros Ho. apply map_ext. intros i. apply upper_median_odd.
  now rewrite values_at_length.
Qed.







(** ** C9: the curve at the point estimate *)

Lemma item_singleton {A} (x y : A) (z : Z) : item [x] z = Ok y -> y = x.
Proof.
  unfold item, index. cbn [List.length].
  destruct (0 <=? z)%Z eqn:E0.
  - destruct (Z.to_nat z) as [|[|k]]; cbn; congruence.
  - destruct (- Z.of_nat 1 <=? z)%Z eqn:E1; [|discriminate].
    apply Z.leb_gt in E0. apply Z.leb_le in E1.
    replace (Z.of_nat 1 + z)%Z with 0%Z by lia. cbn. congruence.
Qed.

Lemma print_each_returns (text : string) (rows : list (list float)) :
  forall w, exists w', print_each text rows w = Ret tt w'.
Proof.
  induction rows as [|row rows IH]; intros w; cbn [print_each].
  - eexists; reflexivity.
  - unfold bind. cbn [emit]. apply IH.
Qed.

(** What [calc_fit_CI] returns as the curve at the point estimate: element
    1 of slot [modelidx] of the blob [lnprob] builds there. *)
Lemma calc_fit_CI_curve (s : Sampler) (modelidx : Z) (confs : list R)
    (last_step : bool) (w w' : world) (modelx model_MAP : list float)
    (CI : list (list float * list float)) (data : Data)
    (model_f : modelfunc) (prior_f : priorfunc) :
  s_args s = (data, model_f, prior_f) ->
  calc_fit_CI norm_cdf s modelidx confs last_step w
  = Ret (modelx, CI, model_MAP) w' ->
  exists out,
    model_f (map mean (transpose (s_dim s) (flatchain s))) data = Ok out /\
    match out with
    | Bare m => model_MAP = m
    | Tuple m extra =>
        bind_result (item extra modelidx) (fun slot => item slot 1)
        = Ok model_MAP
    end.
Proof.
  intros Hargs H. unfold calc_fit_CI, lnprobfn in H. rewrite Hargs in H.
  unfold lnprob, bind in H.
  destruct (ensemble s modelidx last_step) as [model|e];
    cbn [lift ret raise] in H; [|discriminate H].
  destruct (bind_result (item (blobs s) (-1)) _) as [mx|e];
    cbn [lift ret raise] in H; [|discriminate H].
  destruct (map_result _ confs) as [ci|e]; cbn [lift ret raise] in H;
    [|discriminate H].
  destruct (model_f _ data) as [out|e]; cbn [lift ret raise] in H;
    [|discriminate H].
  exists out. split; [reflexivity|].
  destruct out as [m|m extra];
    (destruct (prior_f _) as [lp|e]; cbn [lift ret raise] in H;
     [|discriminate H]);
    cbn [emit snd ret arrays printed] in H.
  - match type of H with
    | context [lift ?r] => destruct r as [slot|e] eqn:Es
    end; cbn [lift ret raise] in H; [|discriminate H].
    apply item_singleton in Es. subst slot.
    rewrite item_1 in H. cbn [lift ret] in H.
    match type of H with
    | context [print_each ?t ?r ?w0] =>
        destruct (print_each_returns t r w0) as [w1 Hw1]; rewrite Hw1 in H
    end.
    injection H as _ _ E _. now symmetry.
  - destruct (item extra modelidx) as [slot|e];
      cbn [lift ret raise bind_result] in *; [|discriminate H].
    destruct (item slot 1) as [c|e]; cbn [lift ret raise] in H;
      [|discriminate H].
    match type of H with
    | context [print_each ?t ?r ?w0] =>
        destruct (print_each_returns t r w0) as [w1 Hw1]; rewrite Hw1 in H
    end.
    injection H as _ _ E _. now rewrite E.
Qed.

(** C9 (as amended).  When [calc_fit_CI] returns, the model evaluator has
    returned at the point estimate (the per-parameter mean of the flattened
    chain), and the curve handed back is element 1 of slot [modelidx] of the
    blob of that evaluation: the evaluator's array itself when it returns a
    bare array, and element 1 of slot [modelidx] of the extra payload when
    it returns a tuple. *)
Theorem map_curve_from_blob (s : Sampler) (modelidx : Z) (confs : list R)
    (last_step : bool) (w w' : world) (modelx model_MAP : list float)
    (CI : list (list float * list float)) (data : Data)
    (model_f : modelfunc) (prior_f : priorfunc) :
  s_args s = (data, model_f, prior_f) ->
  calc_fit_CI norm_cdf s modelidx confs last_step w
  = Ret (modelx, CI, model_MAP) w' ->
  let MAPp := map mean (transpose (s_dim s) (flatchain s)) in
  (exists out, model_f MAPp data = Ok out) /\
  (forall m, model_f MAPp data = Ok (Bare m) -> model_MAP = m) /\
  (forall m extra,
     model_f MAPp data = Ok (Tuple m extra) ->
     bind_result (item extra modelidx) (fun slot => item slot 1)
     = Ok model_MAP).
Proof.
  intros Hargs Hcalc MAPp.
  destruct (calc_fit_CI_curve s modelidx confs last_step w w' modelx
              model_MAP CI data model_f prior_f Hargs Hcalc)
    as (out & Hout & Hcurve).
  fold MAPp in Hout. split; [now exists out|]. split.
  - intros m Hm. rewrite Hm in Hout. injection Hout as <-. exact Hcurve.
  - intros m extra Hm. rewrite Hm in Hout. injection Hout as <-.
    exact Hcurve.
Qed.

End Properties.

(** ** The logistic distribution function *)

Lemma logistic_0 : logistic 0 = 1 / 2.
Proof. unfold logistic. rewrite Ropp_0, exp_0. lra. Qed.

Lemma logistic_is_cdf : is_cdf logistic.
Proof.
  split.
  - intros x. unfold logistic. pose proof (exp_pos (- x)) as H.
    assert (0 < / (1 + exp (- x))) by (apply Rinv_0_lt_compat; lra).
    assert (/ (1 + exp (- x)) < 1).
    { rewrite <- Rinv_1 at 2. apply Rinv_lt_contravar; lra. }
    lra.
  - intros x y Hxy. unfold logistic.
    pose proof (exp_pos (- x)) as Hx. pose proof (exp_pos (- y)) as Hy.
    assert (exp (- y) <= exp (- x)).
    { destruct Hxy as [Hlt|Heq]; [|rewrite Heq; lra].
      left. apply exp_increasing. lra. }
    unfold Rdiv. rewrite !Rmult_1_l.
    apply Rinv_le_contravar; lra.
Qed.

(** ** The bands on a two-curve ensemble *)

Lemma degenerate_band_witness :
  logistic 0 = 1 / 2 /\
  [[Fin 1]; [Fin 3]; [Fin 2]] <> [] /\
  rectangular [[Fin 1]; [Fin 3]; [Fin 2]] 1 /\
  (band logistic [[Fin 1]; [Fin 3]; [Fin 2]] 1 0
   = Ok (map (fun i => upper_median (values_at [[Fin 1]; [Fin 3]; [Fin 2]] i))
             (seq 0 1),
         map (fun i => upper_median (values_at [[Fin 1]; [Fin 3]; [Fin 2]] i))
             (seq 0 1))
   /\ (Nat.odd (List.length [[Fin 1]; [Fin 3]; [Fin 2]]) = true ->
       map (fun i => upper_median (values_at [[Fin 1]; [Fin 3]; [Fin 2]] i))
           (seq 0 1)
       = map (fun i => np_median (values_at [[Fin 1]; [Fin 3]; [Fin 2]] i))
             (seq 0 1))).
Proof.
  assert (Hne : [[Fin 1]; [Fin 3]; [Fin 2]] <> []) by discriminate.
  assert (Hr : rectangular [[Fin 1]; [Fin 3]; [Fin 2]] 1)
    by (repeat constructor).
  split; [exact logistic_0|]. split; [exact Hne|]. split; [exact Hr|].
  exact (degenerate_band logistic _ 1 logistic_0 Hne Hr).
Defined.

Lemma sort_two : np_sort [Fin 1; Fin 3] = [Fin 1; Fin 3].
Proof.
  unfold np_sort. cbn [fold_right insert_sorted sort_leb leb].
  eval_reals. reflexivity.
Qed.

(** C7 as stated fails on an ensemble of two curves with values 1 and 3 at
    the one grid point: both bands are 3 there, and the median is 2. *)
Lemma even_ensemble_band_is_not_median :
  band logistic [[Fin 1]; [Fin 3]] 1 0 = Ok ([Fin 3], [Fin 3]) /\
  np_median (values_at [[Fin 1]; [Fin 3]] 0) = Fin 2 /\
  Fin 3 <> Fin 2.
Proof.
  split; [|split].
  - rewrite (band_at_zero logistic [[Fin 1]; [Fin 3]] 1 logistic_0);
      [|discriminate|repeat constructor].
    cbn [seq map values_at nth]. unfold upper_median.
    rewrite sort_two. reflexivity.
  - unfold np_median. cbn [values_at map nth List.length Nat.even].
    rewrite sort_two.
    change (2 / 2 - 1)%nat with 0%nat. change (2 / 2)%nat with 1%nat.
    cbn [nth]. unfold mean, sum, of_nat. cbn [fold_left List.length add].
    change (INR 2) with (1 + 1). eval_float. f_equal. lra.
  - intros E. injection E. lra.
Qed.








(** ** The curve at the point estimate, on two samplers *)

Lemma map_curve_from_blob_witness :
  s_args sampler_bare = (one_measured, constant_model [Fin 2], flatprior) /\
  calc_fit_CI logistic sampler_bare 0 [] true at_import
  = Ret ([Fin 1], [], [Fin 2])
        (final_world (calc_fit_CI logistic sampler_bare 0 [] true at_import))
  /\
  (forall m,
     constant_model [Fin 2]
       (map mean (transpose (s_dim sampler_bare) (flatchain sampler_bare)))
       one_measured = Ok (Bare m) ->
     [Fin 2] = m).
Proof.
  assert (Ha : s_args sampler_bare
               = (one_measured, constant_model [Fin 2], flatprior))
    by reflexivity.
  assert (Hc : calc_fit_CI logistic sampler_bare 0 [] true at_import
               = Ret ([Fin 1], [], [Fin 2])
                   (final_world
                      (calc_fit_CI logistic sampler_bare 0 [] true at_import)))
    by reflexivity.
  split; [exact Ha|]. split; [exact Hc|].
  exact (proj1 (proj2 (map_curve_from_blob logistic sampler_bare 0 [] true
                         at_import _ _ _ _ _ _ _ Ha Hc))).
Defined.

(** C9 as stated fails for an evaluator that returns a tuple: the curve
    handed back is the payload's, [2], where the evaluator's flux array at
    the point estimate is [1]. *)
Lemma tuple_evaluator_curve_differs :
  calc_fit_CI logistic sampler_tuple 0 [] true at_import
  = Ret ([Fin 1], [], [Fin 2])
        (final_world (calc_fit_CI logistic sampler_tuple 0 [] true at_import))
  /\
  tuple_model [Fin 1] [pair_slot]
    (map mean (transpose (s_dim sampler_tuple) (flatchain sampler_tuple)))
    one_measured
  = Ok (Tuple [Fin 1] [pair_slot]) /\
  [Fin 2] <> [Fin 1].
Proof.
  split; [reflexivity|]. split; [reflexivity|].
  intros E. injection E. lra.
Qed.

(** ** The default guess after one call *)


(** * Further properties *)

(** ** The likelihood *)

Lemma gauss_term_real (pick : convention) (p : point) (a : R) :
  p_model p = Fin a -> sigma_of pick p <> 0 ->
  gauss_term pick p
  = Fin (- ((a + - p_flux p) * (a + - p_flux p))
         / (2 * (sigma_of pick p * sigma_of pick p))).
Proof.
  intros Ha Hs. unfold gauss_term, difference. rewrite Ha.
  set (s := sigma_of pick p) in *.
  cbn [sub neg add sqr mul div].
  rewrite Reqb_false by nra. reflexivity.
Qed.

Lemma zip_points_In_model (model : list float) :
  forall fl errs uls p,
    In p (zip_points model fl errs uls) -> In (p_model p) model.
Proof.
  induction model as [|m model IH]; intros fl errs uls p; [intros []|].
  destruct fl, errs, uls; cbn [zip_points];
    try (intros F; exact (False_ind _ F)).
  intros [<-|Hin]; [now left | right; eauto].
Qed.

Lemma measured_terms_Forall (P : float -> Prop) (model : list float)
    (data : Data) :
  aligned model data ->
  (forall p, In p (points model data) -> measured p = true ->
             P (gauss_term upper_when_above p)) ->
  Forall P (logprob_terms model data).
Proof.
  intros Ha H. rewrite (logprob_terms_points _ _ Ha).
  apply Forall_map, Forall_forall. intros p Hp.
  apply filter_In in Hp. destruct Hp. auto.
Qed.

Lemma fold_add_closed (P : float -> Prop) :
  (forall x y, P x -> P y -> P (add x y)) ->
  forall xs acc, P acc -> Forall P xs -> P (fold_left add xs acc).
Proof.
  intros Hadd. induction xs as [|x xs IH]; intros acc Ha Hxs; [exact Ha|].
  inversion Hxs; subst. cbn [fold_left]. apply IH; auto.
Qed.

Lemma add_at_most_zero (x y : float) :
  at_most_zero x -> at_most_zero y -> at_most_zero (add x y).
Proof. destruct x, y; cbn; try contradiction. lra. Qed.

Lemma measured_sum_at_most_zero (model : list float) (data : Data) :
  Forall finite model -> aligned model data -> errors_nonzero model data ->
  at_most_zero (sum (logprob_terms model data)).
Proof.
  intros Hm Ha Hs. unfold sum.
  apply (fold_add_closed at_most_zero add_at_most_zero); [cbn; lra|].
  apply measured_terms_Forall; [exact Ha|].
  intros p Hp Hmeas. unfold errors_nonzero in Hs.
  rewrite Forall_forall in Hs, Hm.
  pose proof (Hs p Hp Hmeas) as Hsig.
  pose proof (Hm _ (zip_points_In_model _ _ _ _ _ Hp)) as Hfin.
  destruct (p_model p) as [a| | |] eqn:E; try contradiction.
  rewrite (gauss_term_real _ _ a E Hsig). cbn.
  set (s := sigma_of upper_when_above p) in *.
  set (d := a + - p_flux p).
  assert (0 < 2 * (s * s)) by nra.
  assert (0 <= d * d) by nra.
  unfold Rdiv. assert (0 < / (2 * (s * s))) by now apply Rinv_0_lt_compat.
  nra.
Qed.

Lemma violated_le_limits (model : list float) (data : Data) :
  (violated_count model data <= upper_limit_count model data)%nat.
Proof.
  unfold violated_count, upper_limit_count.
  induction (points model data) as [|p ps IH]; [reflexivity|].
  cbn [filter]. unfold violated at 1.
  destruct (p_ul p); cbn [andb]; [|exact IH].
  destruct (gtb _ _); cbn [List.length]; lia.
Qed.

Lemma limit_term_real (k : nat) (c : R) :
  c < 1 ->
  mul (of_nat k) (log (sub (Fin 1) (Fin c))) = Fin (INR k * ln (1 + - c)).
Proof.
  intros Hc. unfold of_nat. cbn [sub neg add log].
  rewrite Rltb_false, Reqb_false by lra. reflexivity.
Qed.

(** In exact arithmetic (float64 rounding, overflow and underflow aside):
    with confidence levels in [0, 1) the log-likelihood is a finite number
    that never exceeds zero. *)
Theorem lnprobmodel_at_most_zero (model : list float) (data : Data) :
  Forall finite model ->
  aligned model data ->
  errors_nonzero model data ->
  ((0 < upper_limit_count model data)%nat -> 0 <= cl data < 1) ->
  at_most_zero (lnprobmodel model data).
Proof.
  intros Hm Ha Hs Hcl.
  pose proof (measured_sum_at_most_zero model data Hm Ha Hs) as Hsum.
  rewrite (lnprobmodel_points model data Ha).
  destruct (0 <? upper_limit_count model data)%nat eqn:E; [|exact Hsum].
  apply Nat.ltb_lt in E. specialize (Hcl E).
  apply add_at_most_zero; [exact Hsum|].
  rewrite limit_term_real by lra. cbn.
  pose proof (pos_INR (violated_count model data)) as Hk.
  assert (ln (1 + - cl data) <= 0).
  { destruct (Req_dec_T (cl data) 0) as [->|Hne].
    - replace (1 + - 0) with 1 by lra. rewrite ln_1. lra.
    - rewrite <- ln_1. left. apply ln_increasing; lra. }
  nra.
Qed.

Lemma lnprobmodel_at_most_zero_witness :
  Forall finite [Fin 2; Fin 4] /\
  aligned [Fin 2; Fin 4] two_points /\
  errors_nonzero [Fin 2; Fin 4] two_points /\
  ((0 < upper_limit_count [Fin 2; Fin 4] two_points)%nat
   -> 0 <= cl two_points < 1) /\
  at_most_zero (lnprobmodel [Fin 2; Fin 4] two_points).
Proof.
  assert (Hm : Forall finite [Fin 2; Fin 4]) by (repeat constructor).
  assert (Ha : aligned [Fin 2; Fin 4] two_points)
    by (repeat split; reflexivity).
  assert (Hs : errors_nonzero [Fin 2; Fin 4] two_points).
  { unfold errors_nonzero. cbn.
    repeat constructor; unfold sigma_of; cbn; intros; lra. }
  assert (Hc : (0 < upper_limit_count [Fin 2; Fin 4] two_points)%nat
               -> 0 <= cl two_points < 1) by (intros _; cbn; lra).
  repeat split; auto; try (cbn; lra).
  exact (lnprobmodel_at_most_zero _ _ Hm Ha Hs Hc).
Defined.

Lemma zip_points_exact (fl : list R) :
  forall errs uls p,
    In p (zip_points (arr fl) fl errs uls) -> p_model p = Fin (p_flux p).
Proof.
  induction fl as [|f fl IH]; intros errs uls p; [intros []|].
  destruct errs, uls; cbn [arr map zip_points];
    try (intros F; exact (False_ind _ F)).
  intros [<-|Hin]; [reflexivity | eapply IH; exact Hin].
Qed.

Lemma add_zero (x y : float) : x = Fin 0 -> y = Fin 0 -> add x y = Fin 0.
Proof. intros -> ->. cbn. f_equal. lra. Qed.

Lemma no_violation_count (ps : list point) :
  (forall p, In p ps -> violated p = false) ->
  List.length (filter violated ps) = 0%nat.
Proof.
  induction ps as [|p ps IH]; intros H; [reflexivity|].
  cbn [filter]. rewrite (H p) by now left.
  apply IH. intros q Hq. apply H. now right.
Qed.

(** In exact arithmetic (float64 rounding, overflow and underflow aside):
    a model that reproduces every observed flux has log-likelihood exactly
    zero, the largest value there is. *)
Theorem exact_model_scores_zero (data : Data) :
  aligned (arr (flux data)) data ->
  errors_nonzero (arr (flux data)) data ->
  ((0 < upper_limit_count (arr (flux data)) data)%nat -> cl data < 1) ->
  lnprobmodel (arr (flux data)) data = Fin 0.
Proof.
  intros Ha Hs Hcl.
  assert (Hsum : sum (logprob_terms (arr (flux data)) data) = Fin 0).
  { unfold sum.
    apply (fold_add_closed (fun x => x = Fin 0) add_zero); [reflexivity|].
    apply measured_terms_Forall; [exact Ha|].
    intros p Hp Hmeas. unfold errors_nonzero in Hs.
    rewrite Forall_forall in Hs.
    rewrite (gauss_term_real _ _ (p_flux p)
               (zip_points_exact _ _ _ _ Hp) (Hs p Hp Hmeas)).
    f_equal. unfold Rdiv. ring. }
  rewrite (lnprobmodel_points _ data Ha), Hsum.
  destruct (0 <? upper_limit_count (arr (flux data)) data)%nat eqn:E;
    [|reflexivity].
  apply Nat.ltb_lt in E. specialize (Hcl E).
  rewrite limit_term_real by exact Hcl.
  unfold violated_count. rewrite no_violation_count.
  - cbn. f_equal. lra.
  - intros p Hp. unfold violated.
    rewrite (zip_points_exact _ _ _ _ Hp). cbn [gtb].
    rewrite Rltb_false by lra. apply andb_false_r.
Qed.

Lemma exact_model_scores_zero_witness :
  aligned (arr (flux two_points)) two_points /\
  errors_nonzero (arr (flux two_points)) two_points /\
  ((0 < upper_limit_count (arr (flux two_points)) two_points)%nat
   -> cl two_points < 1) /\
  lnprobmodel (arr (flux two_points)) two_points = Fin 0.
Proof.
  assert (Ha : aligned (arr (flux two_points)) two_points)
    by (repeat split; reflexivity).
  assert (Hs : errors_nonzero (arr (flux two_points)) two_points).
  { unfold errors_nonzero. cbn.
    repeat constructor; unfold sigma_of; cbn; intros; lra. }
  assert (Hc : (0 < upper_limit_count (arr (flux two_points)) two_points)%nat
               -> cl two_points < 1) by (intros _; cbn; lra).
  repeat split; auto.
  exact (exact_model_scores_zero _ Ha Hs Hc).
Defined.

Lemma measured_sum_finite (model : list float) (data : Data) :
  Forall finite model -> aligned model data -> errors_nonzero model data ->
  exists s, sum (logprob_terms model data) = Fin s.
Proof.
  intros Hm Ha Hs.
  pose proof (measured_sum_at_most_zero model data Hm Ha Hs) as H.
  destruct (sum (logprob_terms model data)) as [s| | |];
    try contradiction. now exists s.
Qed.

(** In exact arithmetic (float64 rounding, overflow and underflow aside):
    with at least one violated upper limit, a larger confidence level below
    1 gives a strictly smaller log-likelihood, and confidence level 1 gives
    [-inf]. *)
Theorem stricter_limit_costs_more (model : list float) (data : Data)
    (c1 c2 : R) :
  Forall finite model ->
  aligned model data ->
  errors_nonzero model data ->
  (0 < violated_count model data)%nat ->
  c1 < c2 < 1 ->
  (exists r1 r2,
     lnprobmodel model (with_cl data c1) = Fin r1 /\
     lnprobmodel model (with_cl data c2) = Fin r2 /\
     r2 < r1)
  /\ lnprobmodel model (with_cl data 1) = NInf.
Proof.
  intros Hm Ha Hs Hv Hc.
  destruct (measured_sum_finite model data Hm Ha Hs) as [s Hsum].
  pose proof (violated_le_limits model data) as Hle.
  assert (Hul : (0 <? upper_limit_count model data)%nat = true)
    by (apply Nat.ltb_lt; lia).
  assert (Hval : forall c,
            lnprobmodel model (with_cl data c)
            = add (Fin s)
                  (mul (of_nat (violated_count model data))
                       (log (sub (Fin 1) (Fin c))))).
  { intros c.
    rewrite (lnprobmodel_points model (with_cl data c) Ha).
    change (upper_limit_count model (with_cl data c))
      with (upper_limit_count model data).
    change (violated_count model (with_cl data c))
      with (violated_count model data).
    rewrite Hul, logprob_terms_with_cl, Hsum. reflexivity. }
  assert (Hk : 0 < INR (violated_count model data)) by now apply lt_0_INR.
  split.
  - exists (s + INR (violated_count model data) * ln (1 + - c1)),
           (s + INR (violated_count model data) * ln (1 + - c2)).
    rewrite !Hval, !limit_term_real by lra.
    repeat split.
    assert (ln (1 + - c2) < ln (1 + - c1)) by (apply ln_increasing; lra).
    nra.
  - rewrite Hval. unfold of_nat. cbn [sub neg add log].
    rewrite Rltb_false, Reqb_true by lra.
    cbn [mul]. unfold scale_inf.
    rewrite Reqb_false, Rltb_true by lra. reflexivity.
Qed.

Lemma stricter_limit_costs_more_witness :
  Forall finite [Fin 2; Fin 4] /\
  aligned [Fin 2; Fin 4] two_points /\
  errors_nonzero [Fin 2; Fin 4] two_points /\
  (0 < violated_count [Fin 2; Fin 4] two_points)%nat /\
  0 < 1 / 2 < 1 /\
  ((exists r1 r2,
      lnprobmodel [Fin 2; Fin 4] (with_cl two_points 0) = Fin r1 /\
      lnprobmodel [Fin 2; Fin 4] (with_cl two_points (1 / 2)) = Fin r2 /\
      r2 < r1)
   /\ lnprobmodel [Fin 2; Fin 4] (with_cl two_points 1) = NInf).
Proof.
  assert (Hm : Forall finite [Fin 2; Fin 4]) by (repeat constructor).
  assert (Ha : aligned [Fin 2; Fin 4] two_points)
    by (repeat split; reflexivity).
  assert (Hs : errors_nonzero [Fin 2; Fin 4] two_points).
  { unfold errors_nonzero. cbn.
    repeat constructor; unfold sigma_of; cbn; intros; lra. }
  assert (Hv : (0 < violated_count [Fin 2; Fin 4] two_points)%nat).
  { unfold violated_count. cbn [points two_points flux dflux ul
      uncertainties map zip_points filter].
    unfold violated. cbn [p_ul p_model p_flux andb gtb].
    rewrite Rltb_true by lra. cbn. lia. }
  assert (Hc : 0 < 1 / 2 < 1) by lra.
  split; [exact Hm|]. split; [exact Ha|]. split; [exact Hs|].
  split; [exact Hv|]. split; [exact Hc|].
  exact (stricter_limit_costs_more _ _ 0 (1 / 2) Hm Ha Hs Hv Hc).
Defined.

Lemma gauss_terms_two_columns (model : list float) :
  forall (fl d : list R) (uls : list bool),
    map (gauss_term upper_when_above)
        (filter measured
           (zip_points model fl (map inr (map (fun s => (s, s)) d)) uls))
    = map (gauss_term upper_when_above)
          (filter measured (zip_points model fl (map inl d) uls)).
Proof.
  induction model as [|m model IH]; intros fl d uls; [reflexivity|].
  destruct fl as [|f fl], d as [|s d], uls as [|u uls]; try reflexivity.
  cbn [map zip_points filter measured p_ul].
  destruct u; cbn [negb map filter measured p_ul]; [apply IH|].
  apply (f_equal2 cons); [|apply IH].
  unfold gauss_term, sigma_of, difference.
  cbn [p_err p_model p_flux upper_when_above fst snd].
  now destruct (gtb _ _).
Qed.

(** An uncertainty given in two equal columns gives the same log-likelihood
    as the same uncertainty given in one column. *)
Theorem equal_columns_are_symmetric (model : list float) (data : Data)
    (d : list R) :
  aligned model (with_dflux data (Sym d)) ->
  lnprobmodel model (with_dflux data (two_columns d))
  = lnprobmodel model (with_dflux data (Sym d)).
Proof.
  intros Ha.
  assert (Ha' : aligned model (with_dflux data (two_columns d))).
  { destruct Ha as (Hf & Hd & Hu). repeat split; auto.
    cbn in *. now rewrite length_map. }
  assert (Ht : logprob_terms model (with_dflux data (two_columns d))
               = logprob_terms model (with_dflux data (Sym d))).
  { rewrite (logprob_terms_points _ _ Ha), (logprob_terms_points _ _ Ha').
    apply gauss_terms_two_columns. }
  unfold lnprobmodel. rewrite Ht. reflexivity.
Qed.

Lemma equal_columns_are_symmetric_witness :
  aligned [Fin 2; Fin 4] (with_dflux two_points (Sym [1; 3])) /\
  lnprobmodel [Fin 2; Fin 4] (with_dflux two_points (two_columns [1; 3]))
  = lnprobmodel [Fin 2; Fin 4] (with_dflux two_points (Sym [1; 3])).
Proof.
  assert (Ha : aligned [Fin 2; Fin 4] (with_dflux two_points (Sym [1; 3])))
    by (repeat split; reflexivity).
  split; [exact Ha | exact (equal_columns_are_symmetric _ _ _ Ha)].
Defined.

Lemma add_real_zero (x : float) (r : R) : r = 0 -> add x (Fin r) = x.
Proof. intros ->. destruct x; cbn; try reflexivity. f_equal. lra. Qed.

(** At confidence level 0 the upper limits cost nothing, violated or not:
    the log-likelihood is the contribution of the measured points alone. *)
Theorem no_confidence_no_penalty (model : list float) (data : Data) :
  aligned model data ->
  lnprobmodel model (with_cl data 0) = sum (logprob_terms model data).
Proof.
  intros Ha.
  rewrite (lnprobmodel_points model (with_cl data 0) Ha).
  rewrite logprob_terms_with_cl.
  destruct (0 <? _)%nat; [|reflexivity].
  cbn [cl with_cl]. rewrite limit_term_real by lra.
  apply add_real_zero.
  replace (1 + - 0) with 1 by lra. rewrite ln_1. lra.
Qed.

Lemma no_confidence_no_penalty_witness :
  aligned [Fin 2; Fin 4] two_points /\
  lnprobmodel [Fin 2; Fin 4] (with_cl two_points 0)
  = sum (logprob_terms [Fin 2; Fin 4] two_points).
Proof.
  assert (Ha : aligned [Fin 2; Fin 4] two_points)
    by (repeat split; reflexivity).
  split; [exact Ha | exact (no_confidence_no_penalty _ _ Ha)].
Defined.

(** ** The prior building blocks *)

(** The uniform prior answers [0.0] or [-inf] and nothing else; on real
    arguments it answers [0.0] exactly on the closed interval, both end
    points included; a [nan] value is rejected. *)
Theorem uniform_prior_window :
  (forall value umin umax : float,
     uniform_prior value umin umax = Fin 0 \/
     uniform_prior value umin umax = NInf) /\
  (forall value umin umax : R,
     uniform_prior (Fin value) (Fin umin) (Fin umax) = Fin 0
     <-> umin <= value <= umax) /\
  (forall umin umax : float, uniform_prior NaN umin umax = NInf).
Proof.
  split; [|split].
  - intros value umin umax. unfold uniform_prior.
    destruct (leb umin value && leb value umax); auto.
  - intros value umin umax. unfold uniform_prior. cbn [leb].
    unfold Rleb.
    destruct (Rle_dec umin value), (Rle_dec value umax); cbn [andb];
      split; intros H; try discriminate H; try reflexivity; lra.
  - intros umin umax. unfold uniform_prior.
    destruct umin; reflexivity.
Qed.

(** For a positive [sigma] the normal prior depends on the value only
    through its distance from the mean, and does not increase with that
    distance: it is symmetric about the mean and largest there. *)
Theorem normal_prior_peaks_at_mean (mean sigma v1 v2 : R) :
  0 < sigma ->
  Rabs (v1 - mean) <= Rabs (v2 - mean) ->
  exists r1 r2,
    normal_prior (Fin v1) (Fin mean) (Fin sigma) = Fin r1 /\
    normal_prior (Fin v2) (Fin mean) (Fin sigma) = Fin r2 /\
    r2 <= r1.
Proof.
  intros Hs Hd.
  rewrite !normal_prior_value by lra.
  do 2 eexists. split; [reflexivity|]. split; [reflexivity|].
  apply Rsqr_le_abs_1 in Hd. unfold Rsqr in Hd.
  assert (Hi : 0 < / (2 * sigma)) by (apply Rinv_0_lt_compat; lra).
  unfold Rdiv. nra.
Qed.

Lemma normal_prior_peaks_at_mean_witness :
  0 < 2 /\ Rabs (3 - 3) <= Rabs (5 - 3) /\
  exists r1 r2,
    normal_prior (Fin 3) (Fin 3) (Fin 2) = Fin r1 /\
    normal_prior (Fin 5) (Fin 3) (Fin 2) = Fin r2 /\
    r2 <= r1.
Proof.
  assert (Hs : 0 < 2) by lra.
  assert (Hd : Rabs (3 - 3) <= Rabs (5 - 3)).
  { replace (3 - 3) with 0 by lra. rewrite Rabs_R0. apply Rabs_pos. }
  split; [exact Hs|]. split; [exact Hd|].
  exact (normal_prior_peaks_at_mean 3 2 3 5 Hs Hd).
Defined.

(** ** The posterior function *)

(** [lnprob] never changes an array; it prints its progress record exactly
    when it returns, and nothing when it raises. *)
Theorem lnprob_effects (pars : list float) (data : Data)
    (model_f : modelfunc) (prior_f : priorfunc) (w : world) :
  match lnprob pars data model_f prior_f w with
  | Ret (total, _) w' =>
      arrays w' = arrays w /\
      printed w' = printed w ++ [Progress pars total]
  | Exc _ w' => w' = w
  end.
Proof.
  unfold lnprob, bind.
  destruct (model_f pars data) as [out|e]; cbn [lift ret raise];
    [|reflexivity].
  destruct out as [m|m extra];
    (destruct (prior_f pars) as [lp|e]; cbn [lift ret raise emit];
     [split; reflexivity | reflexivity]).
Qed.

(** An exception of the model evaluator, or of the prior evaluator once
    the model has returned, is the exception of [lnprob]. *)
Theorem lnprob_propagates_errors (pars : list float) (data : Data)
    (model_f : modelfunc) (prior_f : priorfunc) (w : world) (e : exn) :
  (model_f pars data = Err e ->
   lnprob pars data model_f prior_f w = Exc e w) /\
  (forall out,
     model_f pars data = Ok out -> prior_f pars = Err e ->
     lnprob pars data model_f prior_f w = Exc e w).
Proof.
  split.
  - intros Hm. unfold lnprob, bind. now rewrite Hm.
  - intros out Hm Hp. unfold lnprob, bind. rewrite Hm. cbn [lift ret].
    destruct out; rewrite Hp; reflexivity.
Qed.

Lemma likelihood_is_real (model : list float) (data : Data) :
  Forall finite model -> aligned model data -> errors_nonzero model data ->
  ((0 < upper_limit_count model data)%nat -> cl data < 1) ->
  finite (lnprobmodel model data).
Proof.
  intros Hm Ha Hs Hcl.
  destruct (measured_sum_finite model data Hm Ha Hs) as [s Hsum].
  rewrite (lnprobmodel_points model data Ha), Hsum.
  destruct (0 <? upper_limit_count model data)%nat eqn:E; [|exact I].
  apply Nat.ltb_lt in E. rewrite limit_term_real by auto. exact I.
Qed.

Lemma two_points_likelihood_finite :
  finite (lnprobmodel [Fin 2; Fin 4] two_points).
Proof.
  apply likelihood_is_real.
  - repeat constructor.
  - repeat split; reflexivity.
  - unfold errors_nonzero. cbn.
    repeat constructor; unfold sigma_of; cbn; intros; lra.
  - intros _. cbn. lra.
Qed.

(** A prior of [-inf] is not an error: with a finite log-likelihood
    [lnprob] returns a total of [-inf] together with the usual blob. *)
Theorem hard_prior_returns_minus_infinity (pars : list float) (data : Data)
    (model_f : modelfunc) (prior_f : priorfunc) (m : list float)
    (w : world) :
  model_f pars data = Ok (Bare m) ->
  finite (lnprobmodel m data) ->
  prior_f pars = Ok NInf ->
  lnprob pars data model_f prior_f w
  = Ret (NInf, [[arr (ene data); m]])
        (mkWorld (arrays w) (printed w ++ [Progress pars NInf])).
Proof.
  intros Hm Hf Hp. unfold lnprob, bind. rewrite Hm. cbn [lift ret].
  rewrite Hp. cbn [lift ret emit].
  destruct (lnprobmodel m data); try contradiction. reflexivity.
Qed.

Lemma hard_prior_returns_minus_infinity_witness :
  constant_model [Fin 2; Fin 4] [Fin 5] two_points
  = Ok (Bare [Fin 2; Fin 4]) /\
  finite (lnprobmodel [Fin 2; Fin 4] two_points) /\
  unit_interval_prior [Fin 5] = Ok NInf /\
  lnprob [Fin 5] two_points (constant_model [Fin 2; Fin 4])
         unit_interval_prior at_import
  = Ret (NInf, [[arr (ene two_points); [Fin 2; Fin 4]]])
        (mkWorld (arrays at_import)
           (printed at_import ++ [Progress [Fin 5] NInf])).
Proof.
  assert (Hf : finite (lnprobmodel [Fin 2; Fin 4] two_points))
    by exact two_points_likelihood_finite.
  assert (Hp : unit_interval_prior [Fin 5] = Ok NInf).
  { unfold unit_interval_prior, uniform_prior. cbn [nth leb].
    rewrite Rleb_true, Rleb_false by lra. reflexivity. }
  split; [reflexivity|]. split; [exact Hf|]. split; [exact Hp|].
  exact (hard_prior_returns_minus_infinity [Fin 5] two_points
           (constant_model [Fin 2; Fin 4]) unit_interval_prior
           [Fin 2; Fin 4] at_import eq_refl Hf Hp).
Defined.

(** ** Sampler set-up and runs *)

Lemma set_nth_length {A} (xs : list A) (v : A) :
  forall i, List.length (set_nth xs i v) = List.length xs.
Proof.
  induction xs as [|x xs IH]; intros [|i]; cbn; auto.
Qed.

Lemma set_nth_other {A} (xs : list A) (v d : A) :
  forall i j, j <> i -> nth j (set_nth xs i v) d = nth j xs d.
Proof.
  induction xs as [|x xs IH]; intros [|i] [|j] H; cbn; auto; try lia.
Qed.

Lemma only_norm_changed_refl (a : list float) : only_norm_changed a a.
Proof. split; auto. Qed.

Lemma only_norm_changed_set (a : list float) (v : float) :
  only_norm_changed a (set_nth a 1 v).
Proof.
  split; [apply set_nth_length|]. intros i Hi. now apply set_nth_other.
Qed.

Section Respect.

Variable R : world -> world -> Prop.
Hypothesis R_refl : forall w, R w w.
Hypothesis R_trans : forall w1 w2 w3, R w1 w2 -> R w2 w3 -> R w1 w3.
Hypothesis R_print :
  forall w ev, R w (mkWorld (arrays w) (printed w ++ [ev])).

Lemma respects_ret {A} (a : A) : respects R (ret a).
Proof. intros w. apply R_refl. Qed.

Lemma respects_raise {A} (e : exn) : respects R (@raise A e).
Proof. intros w. apply R_refl. Qed.

Lemma respects_lift {A} (r : result A) : respects R (lift r).
Proof. destruct r; [apply respects_ret | apply respects_raise]. Qed.

Lemma respects_emit (ev : event) : respects R (emit ev).
Proof. intros w. apply R_print. Qed.

Lemma respects_fetch (l : loc) : respects R (fetch l).
Proof. intros w. apply R_refl. Qed.

Lemma respects_bind {A B} (m : M A) (k : A -> M B) :
  respects R m -> (forall a, respects R (k a)) -> respects R (bind m k).
Proof.
  intros Hm Hk w. unfold bind. specialize (Hm w).
  destruct (m w) as [a w1|e w1]; cbn [final_world] in *; [|exact Hm].
  eapply R_trans; [exact Hm | apply Hk].
Qed.

Lemma respects_print_each (text : string) (rows : list (list float)) :
  respects R (print_each text rows).
Proof.
  induction rows as [|row rows IH]; cbn [print_each].
  - apply respects_ret.
  - apply respects_bind; [apply respects_emit | intros _; exact IH].
Qed.

Lemma respects_lnprob (pars : list float) (data : Data)
    (model_f : modelfunc) (prior_f : priorfunc) :
  respects R (lnprob pars data model_f prior_f).
Proof.
  unfold lnprob.
  apply respects_bind; [apply respects_lift | intros out].
  destruct out as [m|m extra];
    (apply respects_bind; [apply respects_lift | intros lp];
     apply respects_bind; [apply respects_emit | intros _];
     apply respects_ret).
Qed.

End Respect.

Lemma only_norm_changed_trans (a b c : list float) :
  only_norm_changed a b -> only_norm_changed b c -> only_norm_changed a c.
Proof.
  intros [Hl1 H1] [Hl2 H2]. split; [congruence|].
  intros i Hi. rewrite H2, H1; auto.
Qed.

Lemma norm_frame_refl (p0 : loc) (w : world) : norm_frame p0 w w.
Proof. split; [reflexivity | apply only_norm_changed_refl]. Qed.

Lemma norm_frame_trans (p0 : loc) (w1 w2 w3 : world) :
  norm_frame p0 w1 w2 -> norm_frame p0 w2 w3 -> norm_frame p0 w1 w3.
Proof.
  intros [Ha Hb] [Hc Hd]. split.
  - intros l Hl. rewrite Hc, Ha; auto.
  - eapply only_norm_changed_trans; eauto.
Qed.

Lemma norm_frame_print (p0 : loc) (w : world) (ev : event) :
  norm_frame p0 w (mkWorld (arrays w) (printed w ++ [ev])).
Proof. split; [reflexivity | apply only_norm_changed_refl]. Qed.

Lemma respects_store_norm (p0 : loc) (v : float) :
  respects (norm_frame p0) (store_item p0 1 v).
Proof.
  intros w. unfold store_item. cbn [final_world]. split; cbn [arrays].
  - intros l Hl. now apply set_heap_other.
  - rewrite set_heap_same. apply only_norm_changed_set.
Qed.

Section MoreProperties.

Variable power : float -> float -> float.
Variable norm_cdf : R -> R.
Variable sample_ball : list float -> list float -> nat -> list (list float).
Variable run_mcmc :
  Sampler -> list (list float) -> nat -> result (Sampler * list (list float)).


(** Whatever its arguments and whatever happens, [get_sampler] leaves every
    array alone except the one [p0] refers to, and of that one it changes
    neither the length nor any component other than component 1. *)
Theorem get_sampler_touches_only_norm (nwalkers nburn : nat) (guess : bool)
    (p0 : loc) (data : option Data) (model_f : modelfunc)
    (prior_f : priorfunc) (threads : nat) (w : world) :
  let w' := final_world (get_sampler sample_ball run_mcmc nwalkers nburn
                           guess p0 data model_f prior_f threads w) in
  (forall l : loc, l <> p0 -> arrays w' l = arrays w l) /\
  only_norm_changed (arrays w p0) (arrays w' p0).
Proof.
  cbv zeta. revert w. change (respects (norm_frame p0)
    (get_sampler sample_ball run_mcmc nwalkers nburn guess p0 data model_f
       prior_f threads)).
  pose proof (norm_frame_refl p0) as Hr.
  pose proof (norm_frame_trans p0) as Ht.
  pose proof (norm_frame_print p0) as Hp.
  unfold get_sampler. destruct data as [data|].
  - apply (respects_bind _ Ht).
    + destruct guess; [|now apply respects_ret].
      apply (respects_bind _ Ht); [now apply respects_fetch | intros p].
      apply (respects_bind _ Ht);
        [now apply respects_lnprob | intros lpb].
      do 3 (apply (respects_bind _ Ht); [now apply respects_lift | intros ?]).
      apply (respects_bind _ Ht); [now apply respects_fetch | intros p'].
      apply (respects_bind _ Ht); [now apply respects_lift | intros nrm].
      apply respects_store_norm.
    + intros _.
      apply (respects_bind _ Ht); [now apply respects_fetch | intros p].
      do 3 (apply (respects_bind _ Ht);
            [now apply respects_emit | intros _]).
      apply (respects_bind _ Ht); [now apply respects_lift | intros r].
      now apply respects_ret.
  - apply (respects_bind _ Ht); [now apply respects_emit | intros _].
    now apply respects_raise.
Qed.

(** A model evaluator that returns a tuple without payload leaves the guess
    step nothing to integrate: after the one evaluation [get_sampler]
    raises [IndexError], and no array has changed. *)
Theorem guess_needs_a_payload (nwalkers nburn : nat) (p0 : loc)
    (data : Data) (model_f : modelfunc) (prior_f : priorfunc)
    (threads : nat) (w : world) (m : list float) (lp : float) :
  model_f (arrays w p0) data = Ok (Tuple m []) ->
  prior_f (arrays w p0) = Ok lp ->
  get_sampler sample_ball run_mcmc nwalkers nburn true p0 (Some data)
    model_f prior_f threads w
  = Exc IndexError
        (mkWorld (arrays w)
           (printed w
            ++ [Progress (arrays w p0) (add (lnprobmodel m data) lp)])).
Proof.
  intros Hm Hp. unfold get_sampler, bind, fetch, lnprob, bind.
  rewrite Hm. cbn [lift ret]. rewrite Hp. reflexivity.
Qed.

(** A guess of fewer than two components has no normalization to rescale:
    after the one evaluation [get_sampler] raises [IndexError], and no
    array has changed. *)
Theorem guess_needs_two_components (nwalkers nburn : nat) (p0 : loc)
    (data : Data) (model_f : modelfunc) (prior_f : priorfunc)
    (threads : nat) (w : world) (spec : list float) (lp : float) :
  model_f (arrays w p0) data = Ok (Bare spec) ->
  prior_f (arrays w p0) = Ok lp ->
  (List.length (arrays w p0) < 2)%nat ->
  get_sampler sample_ball run_mcmc nwalkers nburn true p0 (Some data)
    model_f prior_f threads w
  = Exc IndexError
        (mkWorld (arrays w)
           (printed w
            ++ [Progress (arrays w p0) (add (lnprobmodel spec data) lp)])).
Proof.
  intros Hm Hp Hlen. unfold get_sampler, bind, fetch, lnprob, bind.
  rewrite Hm. cbn [lift ret]. rewrite Hp.
  cbn [emit bind ret snd arrays printed lift].
  repeat (first [rewrite item_0 | rewrite item_1];
          cbn [lift ret arrays printed]).
  assert (Hn : item (arrays w p0) 1 = Err IndexError).
  { destruct (arrays w p0) as [|a [|b rest]]; cbn in Hlen; try lia;
      reflexivity. }
  rewrite Hn. reflexivity.
Qed.

(** Given a sampler and positions, [run_sampler] builds nothing: it
    announces the run, clears the history and runs from the given
    positions.  Given neither, it runs [get_sampler] first and goes on from
    the sampler and positions that returns. *)
Theorem run_sampler_continues (nrun : nat) (s : Sampler)
    (pos : list (list float)) (k : kwargs) (w : world) :
  run_sampler sample_ball run_mcmc nrun (Some s) (Some pos) k w
  = (let w' :=
       mkWorld (arrays w)
         (printed w
          ++ [Printed "Walker burn in finished, running {0} steps..."
                      [of_nat nrun];
              ResetChain;
              RunMCMC pos nrun]) in
     match run_mcmc (reset s) pos nrun with
     | Ok r => Ret r w'
     | Err e => Exc e w'
     end)
  /\
  (forall s1 pos1 w1,
     get_sampler_kw sample_ball run_mcmc k w = Ret (s1, pos1) w1 ->
     run_sampler sample_ball run_mcmc nrun None None k w
     = run_sampler sample_ball run_mcmc nrun (Some s1) (Some pos1) k w1)
  /\
  (forall e w1,
     get_sampler_kw sample_ball run_mcmc k w = Exc e w1 ->
     run_sampler sample_ball run_mcmc nrun None None k w = Exc e w1).
Proof.
  split; [|split].
  - unfold run_sampler, bind. cbn [ret emit arrays printed].
    destruct (run_mcmc _ _ _); cbn [lift ret raise];
      rewrite <- !app_assoc; reflexivity.
  - intros s1 pos1 w1 H. unfold run_sampler, bind at 1. rewrite H.
    reflexivity.
  - intros e w1 H. unfold run_sampler, bind at 1. now rewrite H.
Qed.

(** ** The bands and the report of the summary *)



Lemma rank_in_range (n : nat) (fr : R) :
  (0 < n)%nat -> 0 <= fr < 1 ->
  (Z.to_nat (int_of (fr * INR n)) < n)%nat.
Proof.
  intros Hn Hfr. apply lt_0_INR in Hn.
  assert (H : (0 <= int_of (fr * INR n) < Z.of_nat n)%Z)
    by (apply int_of_bounds; split; nra).
  lia.
Qed.

Lemma rank_monotone (n : nat) (a b : R) :
  0 <= a <= b ->
  (Z.to_nat (int_of (a * INR n)) <= Z.to_nat (int_of (b * INR n)))%nat.
Proof.
  intros Hab. pose proof (pos_INR n) as Hn.
  assert (H : (int_of (a * INR n) <= int_of (b * INR n))%Z)
    by (apply int_of_monotone; split; nra).
  lia.
Qed.


Lemma nonempty_length {A} (xs : list A) :
  xs <> [] -> (0 < List.length xs)%nat.
Proof. destruct xs; [contradiction | cbn; lia]. Qed.

(** For a confidence level that is not negative, and finite curves, the
    band is computed and its lower edge is nowhere above its upper edge. *)
Theorem band_is_ordered (model : list (list float)) (npoints : nat)
    (conf : R) :
  is_cdf norm_cdf ->
  0 <= conf ->
  model <> [] -> rectangular model npoints ->
  Forall (Forall finite) model ->
  exists lo hi,
    band norm_cdf model npoints conf = Ok (lo, hi) /\ Forall2 fle lo hi.
Proof.
  intros [Hrange Hmono] Hc Hne Hr Hf. unfold band.
  rewrite !(band_edge_ok model npoints _ Hne Hr) by apply Hrange.
  cbn [bind_result]. do 2 eexists. split; [reflexivity|].
  apply Forall2_map_seq. intros i Hi. apply in_seq in Hi.
  apply order_statistics_monotone;
    [apply (values_at_finite model npoints); auto; lia|].
  rewrite values_at_length. split.
  - apply rank_monotone. split; [apply Hrange | apply Hmono; lra].
  - apply rank_in_range; [now apply nonempty_length | apply Hrange].
Qed.


(** On a sampler without history [calc_fit_CI] raises [IndexError] before
    anything is evaluated or printed, whichever steps are asked for. *)
Theorem calc_fit_CI_needs_history (s : Sampler) (modelidx : Z)
    (confs : list R) (last_step : bool) (w : world) :
  blobs s = [] ->
  calc_fit_CI norm_cdf s modelidx confs last_step w = Exc IndexError w.
Proof.
  intros Hb. unfold calc_fit_CI, bind, ensemble. rewrite Hb.
  destruct last_step; reflexivity.
Qed.

Lemma same_arrays_trans (w1 w2 w3 : world) :
  same_arrays w1 w2 -> same_arrays w2 w3 -> same_arrays w1 w3.
Proof. unfold same_arrays. congruence. Qed.

(** [calc_fit_CI] never changes an array, whether it returns or raises. *)
Theorem calc_fit_CI_keeps_arrays (s : Sampler) (modelidx : Z)
    (confs : list R) (last_step : bool) (w : world) :
  arrays (final_world (calc_fit_CI norm_cdf s modelidx confs last_step w))
  = arrays w.
Proof.
  revert w. change (respects same_arrays
    (calc_fit_CI norm_cdf s modelidx confs last_step)).
  assert (Hr : forall w, same_arrays w w) by reflexivity.
  assert (Hp : forall w ev,
            same_arrays w (mkWorld (arrays w) (printed w ++ [ev])))
    by reflexivity.
  pose proof same_arrays_trans as Ht.
  unfold calc_fit_CI.
  do 3 (apply (respects_bind _ Ht); [now apply respects_lift | intros ?]).
  apply (respects_bind _ Ht).
  - unfold lnprobfn. destruct (s_args s) as [[d mf] pf].
    now apply respects_lnprob.
  - intros lpb.
    do 2 (apply (respects_bind _ Ht); [now apply respects_lift | intros ?]).
    apply (respects_bind _ Ht); [now apply respects_emit | intros _].
    apply (respects_bind _ Ht); [now apply respects_print_each | intros _].
    now apply respects_ret.
Qed.

Lemma print_each_world (text : string) (rows : list (list float)) :
  forall w,
    print_each text rows w
    = Ret tt (mkWorld (arrays w) (printed w ++ map (Printed text) rows)).
Proof.
  induction rows as [|row rows IH]; intros w; cbn [print_each map].
  - unfold ret. rewrite app_nil_r. now destruct w.
  - unfold bind. cbn [emit]. rewrite IH. cbn [arrays printed].
    now rewrite <- app_assoc.
Qed.

Lemma map2_mean_std (cols : list (list float)) :
  map2 (fun p v => [p; v]) (map mean cols) (map std cols)
  = map (fun col => [mean col; std col]) cols.
Proof. induction cols as [|c cols IH]; cbn; [reflexivity | now f_equal]. Qed.

Lemma map_result_length {A B} (f : A -> result B) (xs : list A) :
  forall ys, map_result f xs = Ok ys -> List.length ys = List.length xs.
Proof.
  induction xs as [|x xs IH]; intros ys; cbn [map_result].
  - intros E. injection E as <-. reflexivity.
  - destruct (f x) as [y|e]; cbn [bind_result]; [|discriminate].
    destruct (map_result f xs) as [ys'|e]; cbn [bind_result];
      [|discriminate].
    intros E. injection E as <-. cbn. f_equal. now apply IH.
Qed.

(** When [calc_fit_CI] returns it has one band per requested confidence
    level, and it has printed, in this order, the progress record of the
    evaluation at the per-parameter means, the heading, and one line with
    mean and standard deviation for each parameter of the chain. *)
Theorem calc_fit_CI_report (s : Sampler) (modelidx : Z) (confs : list R)
    (last_step : bool) (w w' : world) (modelx model_MAP : list float)
    (CI : list (list float * list float)) :
  calc_fit_CI norm_cdf s modelidx confs last_step w
  = Ret (modelx, CI, model_MAP) w' ->
  List.length CI = List.length confs /\
  exists total,
    printed w'
    = printed w
      ++ Progress (map mean (transpose (s_dim s) (flatchain s))) total
      :: Printed "MAP pars (mean, std):" []
      :: map (fun col => Printed "{0:.2e} +/- {1:.2e}" [mean col; std col])
             (transpose (s_dim s) (flatchain s)).
Proof.
  intros H. unfold calc_fit_CI, lnprobfn in H.
  destruct (s_args s) as [[data model_f] prior_f].
  unfold lnprob, bind in H.
  destruct (ensemble s modelidx last_step) as [model|e];
    cbn [lift ret raise] in H; [|discriminate H].
  destruct (bind_result (item (blobs s) (-1)) _) as [mx|e];
    cbn [lift ret raise] in H; [|discriminate H].
  destruct (map_result _ confs) as [ci|e] eqn:Eci; cbn [lift ret raise] in H;
    [|discriminate H].
  apply map_result_length in Eci.
  destruct (model_f _ data) as [out|e]; cbn [lift ret raise] in H;
    [|discriminate H].
  destruct out as [m|m extra];
    (destruct (prior_f _) as [lp|e]; cbn [lift ret raise] in H;
     [|discriminate H]);
    cbn [emit snd ret arrays printed] in H;
    (match type of H with
     | context [lift ?r] => destruct r as [slot|e]
     end; cbn [lift ret raise] in H; [|discriminate H]);
    (match type of H with
     | context [lift ?r] => destruct r as [c|e]
     end; cbn [lift ret raise] in H; [|discriminate H]);
    rewrite print_each_world, map2_mean_std in H;
    cbn [arrays printed] in H;
    injection H as _ Hci _ Hw; subst ci w';
    (split; [exact Eci|]);
    eexists; cbn [printed]; rewrite map_map, <- !app_assoc; reflexivity.
Qed.

End MoreProperties.

(** ** Energy bin edges *)

Lemma map2_length {A B C} (f : A -> B -> C) (xs : list A) :
  forall ys,
    List.length (map2 f xs ys)
    = Nat.min (List.length xs) (List.length ys).
Proof.
  induction xs as [|x xs IH]; intros [|y ys]; cbn; auto.
Qed.

Lemma removelast_length {A} (xs : list A) :
  List.length (removelast xs) = (List.length xs - 1)%nat.
Proof.
  rewrite removelast_firstn_len, length_firstn. lia.
Qed.

Lemma set_item_0 (x v : float) (xs : list float) :
  set_item (x :: xs) 0 v = Ok (v :: xs).
Proof.
  unfold set_item. cbn [Z.leb Z.compare].
  destruct (Z.ltb_spec 0 (Z.of_nat (List.length (x :: xs))));
    [reflexivity | cbn [List.length] in *; lia].
Qed.

Lemma set_nth_end {A} (xs : list A) (y v : A) :
  set_nth (xs ++ [y]) (List.length xs) v = xs ++ [v].
Proof. induction xs as [|x xs IH]; cbn; [reflexivity | now rewrite IH]. Qed.

Lemma set_item_last (xs : list float) (y v : float) :
  set_item (xs ++ [y]) (-1) v = Ok (xs ++ [v]).
Proof.
  unfold set_item. rewrite length_app. cbn [List.length Z.leb Z.compare].
  destruct (Z.leb_spec (- Z.of_nat (List.length xs + 1)) (-1)); [|lia].
  replace (Z.to_nat (Z.of_nat (List.length xs + 1) + -1))
    with (List.length xs) by lia.
  now rewrite set_nth_end.
Qed.

Lemma item_end {A} (l : list A) (a : A) : item (l ++ [a]) (-1) = Ok a.
Proof.
  unfold item, index. cbn [Z.leb Z.compare].
  rewrite length_app. cbn [List.length].
  destruct (Z.leb_spec (- Z.of_nat (List.length l + 1)) (-1)); [|lia].
  replace (Z.to_nat (Z.of_nat (List.length l + 1) + -1))
    with (List.length l) by lia.
  rewrite nth_error_app2, Nat.sub_diag by lia. reflexivity.
Qed.

Lemma item_last {A} (xs : list A) (d : A) :
  xs <> [] -> item xs (-1) = Ok (last xs d).
Proof.
  intros Hne. rewrite (app_removelast_last d Hne) at 1. apply item_end.
Qed.

(** The arrays [generate_energy_edges] zips, for a non-empty input. *)
Lemma edges_shape (e : float) (rest : list float) :
  let ene := e :: rest in
  let midene := map fsqrt (map2 mul (tl ene) (removelast ene)) in
  let D := map2 sub (tl ene) midene in
  let U := map2 sub midene (removelast ene) in
  let first := hd (Fin 0) (U ++ [Fin 0]) in
  generate_energy_edges ene
  = Ok (combine (first :: D) (U ++ [last (first :: D) NaN])).
Proof.
  intros ene midene D U first. unfold generate_energy_edges.
  fold midene. fold D. fold U.
  unfold ene at 1 2. cbn [zeros_like map assign_from_1 assign_to_last].
  assert (Hl : last (Fin 0 :: map (fun _ : float => Fin 0) rest) NaN
               = Fin 0).
  { clear. assert (G : forall x, x = Fin 0 ->
              last (x :: map (fun _ : float => Fin 0) rest) NaN = Fin 0).
    { induction rest as [|r rest IH]; intros x Hx; [exact Hx|].
      cbn [map]. apply (IH (Fin 0)). reflexivity. }
    now apply G. }
  rewrite Hl.
  assert (Hi : item (U ++ [Fin 0]) 0 = Ok first).
  { unfold first. destruct (U ++ [Fin 0]) eqn:E; [|reflexivity].
    destruct U; discriminate. }
  rewrite Hi. cbn [bind_result]. rewrite set_item_0. cbn [bind_result].
  rewrite (item_last (first :: D) NaN) by discriminate.
  cbn [bind_result].
  change (assign_to_last (zeros_like ene) U)
    with (U ++ [last (Fin 0 :: map (fun _ : float => Fin 0) rest) NaN]).
  rewrite Hl, set_item_last. reflexivity.
Qed.

Lemma edges_lengths (e : float) (rest : list float) :
  let ene := e :: rest in
  let midene := map fsqrt (map2 mul (tl ene) (removelast ene)) in
  List.length (map2 sub (tl ene) midene) = List.length rest /\
  List.length (map2 sub midene (removelast ene)) = List.length rest.
Proof.
  intros ene midene.
  assert (Hr : List.length (removelast ene) = List.length rest)
    by (rewrite removelast_length; unfold ene; cbn [List.length]; lia).
  assert (Hm : List.length midene = List.length rest).
  { unfold midene. rewrite length_map, map2_length, Hr.
    unfold ene. cbn [tl]. lia. }
  rewrite !map2_length, Hm, Hr. unfold ene. cbn [tl]. lia.
Qed.

Lemma last_combine {A B} (xs : list A) :
  forall (ys : list B) (a : A) (b : B),
    List.length xs = List.length ys ->
    last (combine xs ys) (a, b) = (last xs a, last ys b).
Proof.
  induction xs as [|x xs IH]; intros [|y ys] a b H; try discriminate;
    [reflexivity|].
  cbn [combine]. destruct xs as [|x' xs], ys as [|y' ys];
    try discriminate; [reflexivity|].
  cbn [List.length] in H. specialize (IH (y' :: ys) a b).
  cbn [combine last] in *. apply IH. cbn [List.length]. lia.
Qed.

(** An empty energy array raises [IndexError].  Any other gives one pair
    of half-widths per energy, and in the first and in the last pair the
    lower and the upper half-width are equal. *)
Theorem energy_edges_shape :
  generate_energy_edges [] = Err IndexError /\
  (forall ene : list float,
     ene <> [] ->
     exists edges,
       generate_energy_edges ene = Ok edges /\
       List.length edges = List.length ene /\
       fst (hd (NaN, NaN) edges) = snd (hd (NaN, NaN) edges) /\
       fst (last edges (NaN, NaN)) = snd (last edges (NaN, NaN))).
Proof.
  split; [reflexivity|].
  intros [|e rest] Hne; [contradiction|].
  pose proof (edges_shape e rest) as Hs.
  destruct (edges_lengths e rest) as [HD HU]. cbv zeta in Hs, HD, HU.
  set (midene := map fsqrt (map2 mul (tl (e :: rest))
                              (removelast (e :: rest)))) in *.
  set (D := map2 sub (tl (e :: rest)) midene) in *.
  set (U := map2 sub midene (removelast (e :: rest))) in *.
  set (first := hd (Fin 0) (U ++ [Fin 0])) in *.
  eexists. split; [exact Hs|].
  assert (Hlen : List.length (first :: D)
                 = List.length (U ++ [last (first :: D) NaN])).
  { rewrite length_app. cbn [List.length]. lia. }
  split; [|split].
  - rewrite length_combine, <- Hlen. cbn [List.length]. lia.
  - destruct U as [|u U'] eqn:EU.
    + destruct D; [reflexivity | cbn in HD, HU; lia].
    + reflexivity.
  - rewrite (last_combine _ _ NaN NaN Hlen), last_last. reflexivity.
Qed.

Lemma arr_tl (es : list R) : tl (arr es) = arr (tl es).
Proof. now destruct es. Qed.

Lemma arr_removelast (es : list R) : removelast (arr es) = arr (removelast es).
Proof.
  induction es as [|e [|e' es] IH]; try reflexivity.
  change (arr (e :: e' :: es)) with (Fin e :: arr (e' :: es)).
  change (removelast (Fin e :: arr (e' :: es)))
    with (Fin e :: removelast (arr (e' :: es))).
  now rewrite IH.
Qed.

Lemma arr_sub (xs : list R) :
  forall ys,
    map2 sub (arr xs) (arr ys) = arr (map2 (fun a b => a + - b) xs ys).
Proof.
  induction xs as [|x xs IH]; intros [|y ys]; try reflexivity.
  cbn [arr map map2]. f_equal. apply IH.
Qed.

Lemma arr_geometric (xs : list R) :
  forall ys,
    Forall (fun e => 0 <= e) xs -> Forall (fun e => 0 <= e) ys ->
    map fsqrt (map2 mul (arr xs) (arr ys))
    = arr (map2 (fun a b => sqrt (a * b)) xs ys).
Proof.
  induction xs as [|x xs IH]; intros [|y ys] Hx Hy; try reflexivity.
  inversion Hx; inversion Hy; subst.
  cbn [arr map map2 mul fsqrt]. rewrite Rltb_false by nra.
  f_equal. now apply IH.
Qed.

Lemma Forall_tl {A} (P : A -> Prop) (xs : list A) :
  Forall P xs -> Forall P (tl xs).
Proof. destruct 1; [constructor | assumption]. Qed.

Lemma Forall_removelast {A} (P : A -> Prop) (xs : list A) :
  Forall P xs -> Forall P (removelast xs).
Proof.
  induction 1 as [|x xs Hx Hxs IH]; [constructor|].
  destruct xs; [constructor|]. cbn [removelast] in *. now constructor.
Qed.

Lemma midene_real (es : list R) :
  Forall (fun e => 0 <= e) es ->
  map fsqrt (map2 mul (tl (arr es)) (removelast (arr es)))
  = arr (geometric_means es).
Proof.
  intros H. rewrite arr_tl, arr_removelast.
  apply arr_geometric; [now apply Forall_tl | now apply Forall_removelast].
Qed.

Lemma geometric_means_length (es : list R) :
  List.length (geometric_means es) = (List.length es - 1)%nat.
Proof.
  unfold geometric_means.
  rewrite map2_length, length_tl, removelast_length. lia.
Qed.

Lemma add_back (a : list R) :
  forall m, List.length a = List.length m ->
    map2 add (arr a) (arr (map2 (fun x y => x + - y) m a)) = arr m.
Proof.
  induction a as [|x a IH]; intros [|y m] H; try discriminate;
    [reflexivity|].
  cbn [arr map map2 add]. f_equal; [f_equal; lra|].
  apply IH. cbn in H. lia.
Qed.

Lemma sub_back (t : list R) :
  forall m, List.length t = List.length m ->
    map2 sub (arr t) (arr (map2 (fun x y => x + - y) t m)) = arr m.
Proof.
  induction t as [|x t IH]; intros [|y m] H; try discriminate;
    [reflexivity|].
  cbn [arr map map2 sub neg add]. f_equal; [f_equal; lra|].
  apply IH. cbn in H. lia.
Qed.

Lemma map_fst_combine {A B} (xs : list A) :
  forall ys : list B,
    List.length xs = List.length ys -> map fst (combine xs ys) = xs.
Proof.
  induction xs as [|x xs IH]; intros [|y ys] H; try discriminate;
    [reflexivity|].
  cbn. f_equal. apply IH. cbn in H. lia.
Qed.

Lemma map_snd_combine {A B} (xs : list A) :
  forall ys : list B,
    List.length xs = List.length ys -> map snd (combine xs ys) = ys.
Proof.
  induction xs as [|x xs IH]; intros [|y ys] H; try discriminate;
    [reflexivity|].
  cbn. f_equal. apply IH. cbn in H. lia.
Qed.

(** The edges on real energies that are not negative, in closed form. *)
Lemma edges_real (e : R) (rest : list R) :
  Forall (fun x => 0 <= x) (e :: rest) ->
  let es := e :: rest in
  let D := arr (map2 (fun a b => a + - b) (tl es) (geometric_means es)) in
  let U := arr (map2 (fun a b => a + - b) (geometric_means es)
                     (removelast es)) in
  let first := hd (Fin 0) (U ++ [Fin 0]) in
  generate_energy_edges (arr es)
  = Ok (combine (first :: D) (U ++ [last (first :: D) NaN]))
  /\ List.length (first :: D) = List.length (U ++ [last (first :: D) NaN]).
Proof.
  intros Hpos es D U first.
  pose proof (edges_shape (Fin e) (arr rest)) as Hs.
  destruct (edges_lengths (Fin e) (arr rest)) as [HD HU].
  cbv zeta in Hs, HD, HU.
  change (Fin e :: arr rest) with (arr es) in Hs, HD, HU.
  rewrite (midene_real es Hpos) in Hs, HD, HU.
  rewrite arr_tl, arr_sub in Hs, HD.
  rewrite arr_removelast, arr_sub in Hs, HU.
  split; [exact Hs|].
  rewrite length_app. cbn [List.length]. fold D in HD. fold U in HU. lia.
Qed.

(** In exact arithmetic (float64 rounding, overflow and underflow aside):
    for energies that are not negative the bins tile the axis: the upper
    boundary of each bin but the last, and the lower boundary of each bin
    but the first, is the geometric mean of the two neighbouring
    energies. *)
Theorem energy_bins_tile (es : list R) :
  es <> [] ->
  Forall (fun e => 0 <= e) es ->
  exists edges,
    generate_energy_edges (arr es) = Ok edges /\
    map2 add (removelast (arr es)) (removelast (map snd edges))
    = arr (geometric_means es) /\
    map2 sub (tl (arr es)) (tl (map fst edges))
    = arr (geometric_means es).
Proof.
  intros Hne Hpos. destruct es as [|e rest]; [contradiction|].
  destruct (edges_real e rest Hpos) as [Hs Hlen]. cbv zeta in Hs, Hlen.
  eexists. split; [exact Hs|].
  rewrite (map_snd_combine _ _ Hlen), (map_fst_combine _ _ Hlen).
  rewrite removelast_last. cbn [tl].
  pose proof (geometric_means_length (e :: rest)) as Hg.
  split.
  - rewrite arr_removelast. apply add_back.
    rewrite removelast_length. lia.
  - rewrite arr_tl. apply sub_back.
    cbn [tl List.length] in *. lia.
Qed.

Lemma energy_bins_tile_witness :
  [1; 4; 9] <> [] /\
  Forall (fun e => 0 <= e) [1; 4; 9] /\
  exists edges,
    generate_energy_edges (arr [1; 4; 9]) = Ok edges /\
    map2 add (removelast (arr [1; 4; 9])) (removelast (map snd edges))
    = arr (geometric_means [1; 4; 9]) /\
    map2 sub (tl (arr [1; 4; 9])) (tl (map fst edges))
    = arr (geometric_means [1; 4; 9]).
Proof.
  assert (Hne : [1; 4; 9] <> []) by discriminate.
  assert (Hpos : Forall (fun e => 0 <= e) [1; 4; 9])
    by (repeat constructor; lra).
  split; [exact Hne|]. split; [exact Hpos|].
  exact (energy_bins_tile _ Hne Hpos).
Defined.

Lemma geometric_mean_between (a b : R) :
  0 <= a <= b -> a <= sqrt (b * a) <= b.
Proof.
  intros [Ha Hab]. split.
  - rewrite <- (sqrt_square a Ha) at 1. apply sqrt_le_1_alt. nra.
  - rewrite <- (sqrt_square b) at 2 by lra. apply sqrt_le_1_alt. nra.
Qed.

Lemma half_widths_real (es : list R) :
  Forall (fun e => 0 <= e) es -> Sorted Rle es ->
  Forall (fun x => 0 <= x)
         (map2 (fun a b => a + - b) (tl es) (geometric_means es)) /\
  Forall (fun x => 0 <= x)
         (map2 (fun a b => a + - b) (geometric_means es) (removelast es)).
Proof.
  induction es as [|e0 [|e1 rest] IH]; intros Hpos Hs;
    [split; constructor | split; constructor |].
  inversion Hpos as [|? ? H0 Hpos']; subst.
  apply Sorted_inv in Hs. destruct Hs as [Hs Hhd].
  apply HdRel_inv in Hhd.
  destruct (IH Hpos' Hs) as [IHd IHu].
  change (geometric_means (e0 :: e1 :: rest))
    with (sqrt (e1 * e0) :: geometric_means (e1 :: rest)).
  change (removelast (e0 :: e1 :: rest))
    with (e0 :: removelast (e1 :: rest)).
  change (tl (e1 :: rest)) with rest in IHd.
  cbn [tl map2].
  destruct (geometric_mean_between e0 e1 (conj H0 Hhd)).
  split; constructor; auto; lra.
Qed.

Lemma Forall_arr (P : R -> Prop) (Q : float -> Prop) (xs : list R) :
  (forall x, P x -> Q (Fin x)) -> Forall P xs -> Forall Q (arr xs).
Proof.
  intros H HP. apply Forall_map. eapply Forall_impl; [|exact HP]. exact H.
Qed.

Lemma Forall_last {A} (P : A -> Prop) (xs : list A) (d : A) :
  xs <> [] -> Forall P xs -> P (last xs d).
Proof.
  intros Hne H. rewrite Forall_forall in H. apply H.
  rewrite (app_removelast_last d Hne) at 2.
  apply in_or_app. right. now left.
Qed.

Lemma Forall_combine {A B} (P : A -> Prop) (Q : B -> Prop) (xs : list A) :
  forall ys,
    Forall P xs -> Forall Q ys ->
    Forall (fun p => P (fst p) /\ Q (snd p)) (combine xs ys).
Proof.
  induction xs as [|x xs IH]; intros [|y ys] Hx Hy; try constructor;
    inversion Hx; inversion Hy; subst; auto.
Qed.

(** In exact arithmetic (float64 rounding, overflow and underflow aside):
    for energies that are not negative and do not decrease along the
    array, every half-width is a real number that is not negative. *)
Theorem energy_half_widths_not_negative (es : list R) :
  es <> [] ->
  Forall (fun e => 0 <= e) es ->
  Sorted Rle es ->
  exists edges,
    generate_energy_edges (arr es) = Ok edges /\
    Forall (fun p => not_negative (fst p) /\ not_negative (snd p)) edges.
Proof.
  intros Hne Hpos Hsorted. destruct es as [|e rest]; [contradiction|].
  destruct (edges_real e rest Hpos) as [Hs _]. cbv zeta in Hs.
  destruct (half_widths_real _ Hpos Hsorted) as [Hd Hu].
  eexists. split; [exact Hs|].
  set (D := arr (map2 (fun a b => a + - b) (tl (e :: rest))
                      (geometric_means (e :: rest)))) in *.
  set (U := arr (map2 (fun a b => a + - b) (geometric_means (e :: rest))
                      (removelast (e :: rest)))) in *.
  assert (HD : Forall not_negative D)
    by (apply (Forall_arr (fun x => 0 <= x)); auto).
  assert (HU : Forall not_negative U)
    by (apply (Forall_arr (fun x => 0 <= x)); auto).
  assert (Hfirst : not_negative (hd (Fin 0) (U ++ [Fin 0]))).
  { destruct U as [|u U']; [cbn; lra|]. now inversion HU. }
  assert (HfD : Forall not_negative (hd (Fin 0) (U ++ [Fin 0]) :: D))
    by now constructor.
  apply Forall_combine; [exact HfD|].
  apply Forall_app. split; [exact HU|].
  constructor; [|constructor].
  apply Forall_last; [discriminate | exact HfD].
Qed.

Lemma energy_half_widths_not_negative_witness :
  [1; 4; 9] <> [] /\
  Forall (fun e => 0 <= e) [1; 4; 9] /\
  Sorted Rle [1; 4; 9] /\
  exists edges,
    generate_energy_edges (arr [1; 4; 9]) = Ok edges /\
    Forall (fun p => not_negative (fst p) /\ not_negative (snd p)) edges.
Proof.
  assert (Hne : [1; 4; 9] <> []) by discriminate.
  assert (Hpos : Forall (fun e => 0 <= e) [1; 4; 9])
    by (repeat constructor; lra).
  assert (Hs : Sorted Rle [1; 4; 9]).
  { apply Sorted_cons; [apply Sorted_cons; [apply Sorted_cons|]|].
    - apply Sorted_nil.
    - apply HdRel_nil.
    - apply HdRel_cons. lra.
    - apply HdRel_cons. lra. }
  split; [exact Hne|]. split; [exact Hpos|]. split; [exact Hs|].
  exact (energy_half_widths_not_negative _ Hne Hpos Hs).
Defined.

(** ** The default model *)

(** [cutoffexp] reads exactly the first four parameters: with fewer it
    raises [IndexError]; with four or more it returns a bare array with one
    flux per energy, and further parameters change nothing. *)
Theorem cutoffexp_reads_four_parameters (power : float -> float -> float) :
  (forall pars data,
     (List.length pars < 4)%nat ->
     cutoffexp power pars data = Err IndexError) /\
  (forall gamma N ecut beta rest data,
     exists model,
       cutoffexp power (gamma :: N :: ecut :: beta :: rest) data
       = Ok (Bare model) /\
       List.length model = List.length (ene data) /\
       cutoffexp power (gamma :: N :: ecut :: beta :: rest) data
       = cutoffexp power [gamma; N; ecut; beta] data).
Proof.
  split.
  - intros pars data Hlen.
    destruct pars as [|a [|b [|c [|d rest]]]]; cbn in Hlen; try lia;
      reflexivity.
  - intros gamma N ecut beta rest data. eexists.
    split; [reflexivity|]. split; [|reflexivity].
    unfold arr. now rewrite !length_map.
Qed.

(** ** The properties above, at inputs *)

Lemma guess_needs_a_payload_witness :
  tuple_model [Fin 2; Fin 4] [] (arrays at_import p00) two_points
  = Ok (Tuple [Fin 2; Fin 4] []) /\
  flatprior (arrays at_import p00) = Ok (Fin 0) /\
  get_sampler still_ball idle_run 600 30 true p00 (Some two_points)
    (tuple_model [Fin 2; Fin 4] []) flatprior 8 at_import
  = Exc IndexError
        (mkWorld (arrays at_import)
           (printed at_import
            ++ [Progress (arrays at_import p00)
                  (add (lnprobmodel [Fin 2; Fin 4] two_points) (Fin 0))])).
Proof.
  split; [reflexivity|]. split; [reflexivity|].
  exact (guess_needs_a_payload still_ball idle_run 600 30 p00 two_points
           (tuple_model [Fin 2; Fin 4] []) flatprior 8 at_import
           [Fin 2; Fin 4] (Fin 0) eq_refl eq_refl).
Defined.

Lemma guess_needs_two_components_witness :
  constant_model [Fin 2; Fin 4] (arrays at_import 1%nat) two_points
  = Ok (Bare [Fin 2; Fin 4]) /\
  flatprior (arrays at_import 1%nat) = Ok (Fin 0) /\
  (List.length (arrays at_import 1%nat) < 2)%nat /\
  get_sampler still_ball idle_run 600 30 true 1%nat (Some two_points)
    (constant_model [Fin 2; Fin 4]) flatprior 8 at_import
  = Exc IndexError
        (mkWorld (arrays at_import)
           (printed at_import
            ++ [Progress (arrays at_import 1%nat)
                  (add (lnprobmodel [Fin 2; Fin 4] two_points) (Fin 0))])).
Proof.
  assert (Hlen : (List.length (arrays at_import 1%nat) < 2)%nat)
    by (cbn; lia).
  split; [reflexivity|]. split; [reflexivity|]. split; [exact Hlen|].
  exact (guess_needs_two_components still_ball idle_run 600 30 1%nat
           two_points (constant_model [Fin 2; Fin 4]) flatprior 8 at_import
           [Fin 2; Fin 4] (Fin 0) eq_refl eq_refl Hlen).
Defined.

Lemma band_is_ordered_witness :
  is_cdf logistic /\ 0 <= 1 /\
  [[Fin 1]; [Fin 3]] <> [] /\
  rectangular [[Fin 1]; [Fin 3]] 1 /\
  Forall (Forall finite) [[Fin 1]; [Fin 3]] /\
  exists lo hi,
    band logistic [[Fin 1]; [Fin 3]] 1 1 = Ok (lo, hi) /\
    Forall2 fle lo hi.
Proof.
  assert (Hc : 0 <= 1) by lra.
  assert (Hne : [[Fin 1]; [Fin 3]] <> []) by discriminate.
  assert (Hr : rectangular [[Fin 1]; [Fin 3]] 1) by (repeat constructor).
  assert (Hf : Forall (Forall finite) [[Fin 1]; [Fin 3]])
    by (repeat constructor).
  split; [exact logistic_is_cdf|]. split; [exact Hc|].
  split; [exact Hne|]. split; [exact Hr|]. split; [exact Hf|].
  exact (band_is_ordered logistic _ 1 1 logistic_is_cdf Hc Hne Hr Hf).
Defined.


Lemma calc_fit_CI_needs_history_witness :
  blobs fresh_sampler = [] /\
  calc_fit_CI logistic fresh_sampler 0 [3; 1] true at_import
  = Exc IndexError at_import.
Proof.
  split; [reflexivity|].
  exact (calc_fit_CI_needs_history logistic fresh_sampler 0 [3; 1] true
           at_import eq_refl).
Defined.

Lemma calc_fit_CI_report_witness :
  calc_fit_CI logistic sampler_bare 0 [] true at_import
  = Ret ([Fin 1], [], [Fin 2])
        (final_world (calc_fit_CI logistic sampler_bare 0 [] true at_import))
  /\
  List.length (@nil (list float * list float)) = List.length (@nil R) /\
  exists total,
    printed (final_world
               (calc_fit_CI logistic sampler_bare 0 [] true at_import))
    = printed at_import
      ++ Progress (map mean (transpose (s_dim sampler_bare)
                               (flatchain sampler_bare))) total
      :: Printed "MAP pars (mean, std):" []
      :: map (fun col => Printed "{0:.2e} +/- {1:.2e}" [mean col; std col])
             (transpose (s_dim sampler_bare) (flatchain sampler_bare)).
Proof.
  assert (Hc : calc_fit_CI logistic sampler_bare 0 [] true at_import
               = Ret ([Fin 1], [], [Fin 2])
                   (final_world
                      (calc_fit_CI logistic sampler_bare 0 [] true at_import)))
    by reflexivity.
  split; [exact Hc|].
  exact (calc_fit_CI_report logistic sampler_bare 0 [] true at_import _ _ _
           _ Hc).
Defined.

Lemma lnprob_propagates_errors_witness :
  cutoffexp exp_log_power [Fin 2; Fin 1] two_points = Err IndexError /\
  lnprob [Fin 2; Fin 1] two_points (cutoffexp exp_log_power) flatprior
         at_import
  = Exc IndexError at_import.
Proof.
  split; [reflexivity|].
  exact (proj1 (lnprob_propagates_errors [Fin 2; Fin 1] two_points
                  (cutoffexp exp_log_power) flatprior at_import IndexError)
               eq_refl).
Defined.

Lemma energy_edges_shape_witness :
  [Fin 1; Fin 4] <> [] /\
  exists edges,
    generate_energy_edges [Fin 1; Fin 4] = Ok edges /\
    List.length edges = List.length [Fin 1; Fin 4] /\
    fst (hd (NaN, NaN) edges) = snd (hd (NaN, NaN) edges) /\
    fst (last edges (NaN, NaN)) = snd (last edges (NaN, NaN)).
Proof.
  assert (Hne : [Fin 1; Fin 4] <> []) by discriminate.
  split; [exact Hne|].
  exact (proj2 energy_edges_shape [Fin 1; Fin 4] Hne).
Defined.

Lemma cutoffexp_reads_four_parameters_witness :
  (List.length [Fin 2; Fin 1; Fin 10] < 4)%nat /\
  cutoffexp exp_log_power [Fin 2; Fin 1; Fin 10] two_points
  = Err IndexError.
Proof.
  assert (Hlen : (List.length [Fin 2; Fin 1; Fin 10] < 4)%nat)
    by (cbn; lia).
  split; [exact Hlen|].
  exact (proj1 (cutoffexp_reads_four_parameters exp_log_power)
               [Fin 2; Fin 1; Fin 10] two_points Hlen).
Defined.
